(** * Key-health warnings of fluidkeys: [status/status.go]

    A shallow embedding of package [status] (file [status/status.go]) and of
    the fragments of Go's [time] and [sort] packages and of the [openpgp]
    data types that it uses, followed by the properties of the warning
    engine. *)

From Stdlib Require Import String ZArith QArith Qround List Bool Lia.
From Stdlib Require Import Permutation Sorted.
Import ListNotations.
Open Scope Z_scope.

(** ** Go's [time] package, as far as [status.go] uses it *)

Module time.

(** [time.Duration] is an [int64] count of nanoseconds. *)
Definition Duration := Z.

Definition Nanosecond : Duration := 1.
Definition Microsecond : Duration := 1000 * Nanosecond.
Definition Millisecond : Duration := 1000 * Microsecond.
Definition Second : Duration := 1000 * Millisecond.
Definition Minute : Duration := 60 * Second.
Definition Hour : Duration := 60 * Minute.

Definition minDuration : Duration := - 2 ^ 63.
Definition maxDuration : Duration := 2 ^ 63 - 1.

(** Two's-complement wrap-around of [int64] arithmetic. *)
Definition wrap64 (z : Z) : Z := (z + 2 ^ 63) mod 2 ^ 64 - 2 ^ 63.

(** [Duration * Duration] in Go is an [int64] product. *)
Definition mul (a b : Duration) : Duration := wrap64 (a * b).

(** A [*time.Location] is modelled as a zone with a fixed offset, in seconds
    east of UTC (what [time.FixedZone] builds); [time.UTC] has offset 0. *)
Record Location := mkLocation { offset : Z }.

Definition UTC : Location := {| offset := 0 |}.

(** A [time.Time] is an instant, kept as nanoseconds since the Unix epoch,
    together with the location it is presented in.  Go keeps the seconds in
    an [int64] counted from year 1; instants are left unbounded here. *)
Record Time := mkTime { unixNano : Z; loc : Location }.

Definition Before (t u : Time) : bool := unixNano t <? unixNano u.
Definition After (t u : Time) : bool := unixNano u <? unixNano t.
Definition Equal (t u : Time) : bool := unixNano t =? unixNano u.

Definition Add (t : Time) (d : Duration) : Time :=
  {| unixNano := unixNano t + d; loc := loc t |}.

(** [t.Sub(u)]: the difference, saturated to the range of [Duration]. *)
Definition Sub (t u : Time) : Duration :=
  let d := unixNano t - unixNano u in
  if d <? minDuration then minDuration
  else if maxDuration <? d then maxDuration
  else d.

(** [t.In(loc)]: the same instant, presented in another location. *)
Definition In (t : Time) (l : Location) : Time :=
  {| unixNano := unixNano t; loc := l |}.

Definition Location_of (t : Time) : Location := loc t.

(** *** The proleptic Gregorian calendar of [time.Date] and [Time.Date] *)

Definition secondsPerDay : Z := 86400.
Definition daysPer400Years : Z := 365 * 400 + 97.
Definition daysPer100Years : Z := 365 * 100 + 24.
Definition daysPer4Years : Z := 365 * 4 + 1.

(** Days from 0001-01-01 to 1970-01-01. *)
Definition unixEpochDays : Z := 719162.

Definition isLeap (year : Z) : bool :=
  (year mod 4 =? 0) && (negb (year mod 100 =? 0) || (year mod 400 =? 0)).

(** [daysBefore[m]]: days in a non-leap year before month [m+1]. *)
Definition daysBefore (m : Z) : Z :=
  match m with
  | 0 => 0
  | 1 => 31
  | 2 => 31 + 28
  | 3 => 31 + 28 + 31
  | 4 => 31 + 28 + 31 + 30
  | 5 => 31 + 28 + 31 + 30 + 31
  | 6 => 31 + 28 + 31 + 30 + 31 + 30
  | 7 => 31 + 28 + 31 + 30 + 31 + 30 + 31
  | 8 => 31 + 28 + 31 + 30 + 31 + 30 + 31 + 31
  | 9 => 31 + 28 + 31 + 30 + 31 + 30 + 31 + 31 + 30
  | 10 => 31 + 28 + 31 + 30 + 31 + 30 + 31 + 31 + 30 + 31
  | 11 => 31 + 28 + 31 + 30 + 31 + 30 + 31 + 31 + 30 + 31 + 30
  | _ => 31 + 28 + 31 + 30 + 31 + 30 + 31 + 31 + 30 + 31 + 30 + 31
  end.

Definition daysIn (m : Z) (year : Z) : Z :=
  if (m =? 2) && isLeap year then 29
  else daysBefore m - daysBefore (m - 1).

(** Days from 0001-01-01 to the first of January of [year]. *)
Definition daysSinceEpoch (year : Z) : Z :=
  let y := year - 1 in
  let n400 := y / 400 in
  let y1 := y - 400 * n400 in
  let n100 := y1 / 100 in
  let y2 := y1 - 100 * n100 in
  let n4 := y2 / 4 in
  let y3 := y2 - 4 * n4 in
  daysPer400Years * n400 + daysPer100Years * n100 + daysPer4Years * n4
  + 365 * y3.

(** Day number (from 0001-01-01) of a calendar date; month in 1..12. *)
Definition dateToDays (year month day : Z) : Z :=
  daysSinceEpoch year + daysBefore (month - 1)
  + (if isLeap year && (3 <=? month) then 1 else 0)
  + (day - 1).

(** [time.Date(year, month, day, hour, min, sec, nsec, loc)] for arguments
    that are in range (no normalisation is needed at the call site of
    [beginningOfMonth], which passes day 1 at midnight). *)
Definition Date (year month day hour min sec nsec : Z) (l : Location) : Time :=
  let abs := dateToDays year month day * secondsPerDay
             + hour * 3600 + min * 60 + sec in
  let unix := abs - unixEpochDays * secondsPerDay - offset l in
  {| unixNano := unix * Second + nsec; loc := l |}.

(** Month and day of the month from the day of the year, as [absDate]. *)
Definition monthDay (year yday : Z) : Z * Z :=
  let leapDay := isLeap year && (yday =? 31 + 29 - 1) in
  if leapDay then (2, 29)
  else
    let day := if isLeap year && (31 + 29 - 1 <? yday) then yday - 1 else yday in
    let month := day / 31 in
    let end_ := daysBefore (month + 1) in
    if end_ <=? day then (month + 2, day - end_ + 1)
    else (month + 1, day - daysBefore month + 1).

(** [absDate]: year, month and day of a day number counted from 0001-01-01,
    by cutting off 400-, 100-, 4- and 1-year cycles. *)
Definition absDate (days : Z) : Z * Z * Z :=
  let n400 := days / daysPer400Years in
  let d1 := days - daysPer400Years * n400 in
  let n100 := d1 / daysPer100Years in
  let n100 := n100 - Z.shiftr n100 2 in
  let d2 := d1 - daysPer100Years * n100 in
  let n4 := d2 / daysPer4Years in
  let d3 := d2 - daysPer4Years * n4 in
  let n1 := d3 / 365 in
  let n1 := n1 - Z.shiftr n1 2 in
  let yday := d3 - 365 * n1 in
  let year := 400 * n400 + 100 * n100 + 4 * n4 + n1 + 1 in
  let '(month, day) := monthDay year yday in
  (year, month, day).

(** [t.Date()]: the calendar date of [t] in its own location. *)
Definition Time_Date (t : Time) : Z * Z * Z :=
  let unix := unixNano t / Second in
  let abs := unix + offset (loc t) + unixEpochDays * secondsPerDay in
  absDate (abs / secondsPerDay).

(** The zero [Time]: January 1, year 1, 00:00:00 UTC. *)
Definition zero : Time :=
  {| unixNano := - unixEpochDays * secondsPerDay * Second; loc := UTC |}.

(** [d.Seconds()] is a [float64].  Floating-point values are kept as the
    exact rationals they stand for: the rounding of [float64] arithmetic is
    not modelled (in [status.go] it can only show in the day count of a
    duration that ends within microseconds of a whole number of days). *)
Definition Seconds (d : Duration) : Q := inject_Z d / inject_Z Second.

End time.

(** ** Panics *)

(** A Go function that may [panic] returns a [result]: its value, or the
    panic that unwinds the callers. *)
Inductive result (A : Type) : Type :=
| Ok (a : A)
| Panic (msg : string).

Arguments Ok {A} a.
Arguments Panic {A} msg.

Definition bind {A B : Type} (r : result A) (k : A -> result B) : result B :=
  match r with
  | Ok a => k a
  | Panic msg => Panic msg
  end.

Notation "x <- r ;; k" := (bind r (fun x => k))
  (at level 61, r at next level, right associativity).

(** [*p] for a pointer that may be [nil]. *)
Definition deref {A : Type} (p : option A) : result A :=
  match p with
  | Some v => Ok v
  | None => Panic "invalid memory address or nil pointer dereference"
  end.

(** [int(x)] for a [float64] [x]: the fraction is discarded (truncation
    towards zero). *)
Definition int_of_float (x : Q) : Z :=
  if Qle_bool 0 x then Qfloor x else Qceiling x.

(** ** Go's [sort] package *)

Module sort.

(** [sort.Interface]. *)
Class Interface (T : Type) := {
  Len : T -> nat;
  Less : T -> nat -> nat -> bool;
  Swap : T -> nat -> nat -> T
}.

(** [sort.Reverse]: the wrapped collection with [Less] turned around. *)
Record reverse (T : Type) := mkReverse { inner : T }.
Arguments mkReverse {T} inner.
Arguments inner {T} r.

#[global] Instance reverse_Interface (T : Type) `{Interface T} :
  Interface (reverse T) := {
  Len r := Len (inner r);
  Less r i j := Less (inner r) j i;
  Swap r i j := mkReverse (Swap (inner r) i j)
}.

Definition Reverse {T : Type} (data : T) : reverse T := mkReverse data.

(** The inner loop of [insertionSort], with lower bound [a]:
    [for j := i; j > a && data.Less(j, j-1); j-- { data.Swap(j, j-1) }]. *)
Fixpoint sink {T : Type} `{Interface T} (a : nat) (data : T) (j : nat) : T :=
  match j with
  | O => data
  | S j' =>
      if (a <? j)%nat && Less data j j'
      then sink a (Swap data j j') j'
      else data
  end.

Definition insertionSort {T : Type} `{Interface T} (data : T) (a b : nat) : T :=
  fold_left (sink a) (seq (a + 1) (b - (a + 1))) data.

(** [sort.Sort] promises a permutation in increasing order of [Less] and no
    stability.  It is modelled by the insertion sort that the library runs
    on short slices; how it orders elements that compare equal depends on
    the library's version, and no statement below relies on it. *)
Definition Sort {T : Type} `{Interface T} (data : T) : T :=
  insertionSort data 0 (Len data).

End sort.

(** ** The OpenPGP data that the engine reads *)

Module packet.

(** The fields of [packet.PublicKey] that [status.go] reads; [KeyId] is a
    [uint64]. *)
Record PublicKey := mkPublicKey {
  CreationTime : time.Time;
  KeyId : Z
}.

(** The fields of [packet.Signature] that [status.go] reads;
    [KeyLifetimeSecs] is a [*uint32], [nil] when the signature carries no
    key lifetime. *)
Record Signature := mkSignature {
  KeyLifetimeSecs : option Z;
  FlagsValid : bool;
  FlagEncryptCommunications : bool;
  FlagEncryptStorage : bool
}.

End packet.

Module openpgp.

(** [openpgp.Identity] and [openpgp.Subkey]: [SelfSignature], [PublicKey]
    and [Sig] are pointers, never [nil] in a parsed key. *)
Record Identity := mkIdentity {
  SelfSignature : packet.Signature
}.

Record Subkey := mkSubkey {
  PublicKey : packet.PublicKey;
  Sig : packet.Signature
}.

End openpgp.

Module pgpkey.

(** Modelled from the spec: package [pgpkey] is not part of the sources at
    hand.  A [pgpkey.PgpKey] is an [openpgp.Entity]: a primary key with its
    creation time, identities and subkeys.  [Identities] is a Go map; the
    list gives its entries in the order the [range] loop visits them. *)
Record PgpKey := mkPgpKey {
  PrimaryKey : packet.PublicKey;
  Identities : list openpgp.Identity;
  Subkeys : list openpgp.Subkey
}.

End pgpkey.

(** ** Package [status] *)

Module status.
Import time.

(** Modelled from the spec: the declarations of [WarningType] and
    [KeyWarning] are in a file of the package that is not part of the
    sources at hand; the kinds are those the spec and [status.go] name, and
    the payload fields are those [status.go] sets ([SubkeyId] is a [uint64],
    the day counts are [uint]).  A field that a literal leaves out has its
    zero value. *)
Inductive WarningType : Type :=
| PrimaryKeyDueForRotation
| PrimaryKeyOverdueForRotation
| PrimaryKeyExpired
| PrimaryKeyNoExpiry
| PrimaryKeyLongExpiry
| NoValidEncryptionSubkey
| SubkeyDueForRotation
| SubkeyOverdueForRotation
| SubkeyNoExpiry
| SubkeyLongExpiry.

(** Modelled from the spec: [KeyWarning], a kind with its payload. *)
Record KeyWarning := mkKeyWarning {
  Type_ : WarningType;
  SubkeyId : Z;
  DaysUntilExpiry : Z;
  DaysSinceExpiry : Z
}.

Definition WarningType_eqb (a b : WarningType) : bool :=
  match a, b with
  | PrimaryKeyDueForRotation, PrimaryKeyDueForRotation
  | PrimaryKeyOverdueForRotation, PrimaryKeyOverdueForRotation
  | PrimaryKeyExpired, PrimaryKeyExpired
  | PrimaryKeyNoExpiry, PrimaryKeyNoExpiry
  | PrimaryKeyLongExpiry, PrimaryKeyLongExpiry
  | NoValidEncryptionSubkey, NoValidEncryptionSubkey
  | SubkeyDueForRotation, SubkeyDueForRotation
  | SubkeyOverdueForRotation, SubkeyOverdueForRotation
  | SubkeyNoExpiry, SubkeyNoExpiry
  | SubkeyLongExpiry, SubkeyLongExpiry => true
  | _, _ => false
  end.

Definition tenDays : Duration := Hour * 24 * 10.
Definition thirtyDays : Duration := Hour * 24 * 30.
Definition fortyFiveDays : Duration := Hour * 24 * 45.

Definition calculateNextRotationTime (expiry : Time) : Time :=
  Add expiry (- thirtyDays).

Definition beginningOfMonth (now : Time) : Time :=
  let '(y, m, _) := Time_Date now in
  In (Date y m 1 0 0 0 0 (Location_of now)) UTC.

Definition firstOfNextMonth (today : Time) : Time :=
  let firstOfThisMonth := beginningOfMonth today in
  beginningOfMonth (Add firstOfThisMonth fortyFiveDays).

Definition nextExpiryTime (now : Time) : Time :=
  In (Add (firstOfNextMonth now) thirtyDays) UTC.

Definition isExpiryTooLong (expiry now : Time) : bool :=
  let latestAcceptableExpiry := nextExpiryTime now in
  After expiry latestAcceptableExpiry.

Definition isExpired (expiry now : Time) : bool :=
  Before expiry now.

Definition isOverdueForRotation (nextRotation now : Time) : bool :=
  let overdueTime := Add nextRotation tenDays in
  Before overdueTime now.

Definition isDueForRotation (nextRotation now : Time) : bool :=
  Before nextRotation now.

Definition inDays (duration : Duration) : Z :=
  int_of_float (Seconds duration / 86400)%Q.

Definition getDaysUntilExpiry (expiry now : Time) : result Z :=
  let days := inDays (Sub expiry now) in
  if days <? 0
  then Panic "getDaysUntilExpiry: expiry has already passed"
  else Ok days.

Definition getDaysSinceExpiry (expiry now : Time) : result Z :=
  let days := inDays (Sub now expiry) in
  if days <? 0
  then Panic "getDaysSinceExpiry: expiry is in the future"
  else Ok days.

(** [lifetimeSecs] is a [*uint32]; the conversion to [Duration] and the
    product with [time.Second] are [int64] arithmetic. *)
Definition calculateExpiry (creationTime : Time) (lifetimeSecs : option Z)
  : bool * option Time :=
  match lifetimeSecs with
  | None => (false, None)
  | Some secs =>
      if secs =? 0 then (false, None)
      else
        let expiry := In (Add creationTime (mul secs Second)) UTC in
        (true, Some expiry)
  end.

Definition getSubkeyExpiry (subkey : openpgp.Subkey) : bool * option Time :=
  calculateExpiry
    (packet.CreationTime (openpgp.PublicKey subkey))
    (packet.KeyLifetimeSecs (openpgp.Sig subkey)).

Definition earliest (times : list Time) : result Time :=
  if (length times =? 0)%nat
  then Panic "earliest called with empty slice"
  else
    let '(_, earliestSoFar) :=
      fold_left
        (fun (st : bool * Time) (t : Time) =>
           let '(set, earliestSoFar) := st in
           if negb set || Before t earliestSoFar then (true, t) else st)
        times (false, zero) in
    Ok earliestSoFar.

(** The loop of [getEarliestUidExpiry] that gathers the expiry times. *)
Definition uidExpiryTimes (key : pgpkey.PgpKey) : result (list Time) :=
  fold_left
    (fun (acc : result (list Time)) (id : openpgp.Identity) =>
       allExpiryTimes <- acc ;;
       let '(hasExpiry, expiryTime) :=
         calculateExpiry
           (packet.CreationTime (pgpkey.PrimaryKey key))
           (packet.KeyLifetimeSecs (openpgp.SelfSignature id)) in
       if hasExpiry
       then t <- deref expiryTime ;; Ok (allExpiryTimes ++ [t])
       else Ok allExpiryTimes)
    (pgpkey.Identities key) (Ok []).

Definition getEarliestUidExpiry (key : pgpkey.PgpKey)
  : result (bool * option Time) :=
  allExpiryTimes <- uidExpiryTimes key ;;
  if (0 <? length allExpiryTimes)%nat
  then earliestExpiry <- earliest allExpiryTimes ;;
       Ok (true, Some earliestExpiry)
  else Ok (false, None).

(** [ByCreated] implements [sort.Interface] for [[]openpgp.Subkey].  An
    index out of range makes Go panic; the sort never passes one. *)
Definition ByCreated := list openpgp.Subkey.

Definition ByCreated_Len (a : ByCreated) : nat := length a.

Definition ByCreated_Swap (a : ByCreated) (i j : nat) : ByCreated :=
  match nth_error a i, nth_error a j with
  | Some ai, Some aj =>
      let a' := firstn i a ++ aj :: skipn (S i) a in
      firstn j a' ++ ai :: skipn (S j) a'
  | _, _ => a
  end.

Definition ByCreated_Less (a : ByCreated) (i j : nat) : bool :=
  match nth_error a i, nth_error a j with
  | Some ai, Some aj =>
      let iTime := packet.CreationTime (openpgp.PublicKey ai) in
      let jTime := packet.CreationTime (openpgp.PublicKey aj) in
      Before iTime jTime
  | _, _ => false
  end.

#[global] Instance ByCreated_Interface : sort.Interface ByCreated := {
  Len := ByCreated_Len;
  Less := ByCreated_Less;
  Swap := ByCreated_Swap
}.

(** The loop of [getMostRecentEncryptionSubkey] that keeps the subkeys
    flagged for encryption. *)
Definition encryptionSubkeys (key : pgpkey.PgpKey) : list openpgp.Subkey :=
  fold_left
    (fun (subkeys : list openpgp.Subkey) (subkey : openpgp.Subkey) =>
       let hasEncryptionFlag :=
         packet.FlagEncryptCommunications (openpgp.Sig subkey)
         || packet.FlagEncryptStorage (openpgp.Sig subkey) in
       if packet.FlagsValid (openpgp.Sig subkey) && hasEncryptionFlag
       then subkeys ++ [subkey]
       else subkeys)
    (pgpkey.Subkeys key) [].

Definition getMostRecentEncryptionSubkey (key : pgpkey.PgpKey)
  : option openpgp.Subkey :=
  let subkeys := encryptionSubkeys key in
  if (length subkeys =? 0)%nat then None
  else
    let subkeys : ByCreated :=
      sort.inner (sort.Sort (sort.Reverse (subkeys : ByCreated))) in
    nth_error subkeys 0.

(** [time.Now()] is the argument [now] of the two evaluators. *)
Definition getEncryptionSubkeyWarnings (now : Time) (key : pgpkey.PgpKey)
  : result (list KeyWarning) :=
  match getMostRecentEncryptionSubkey key with
  | None => Ok [mkKeyWarning NoValidEncryptionSubkey 0 0 0]
  | Some encryptionSubkey =>
      let subkeyId := packet.KeyId (openpgp.PublicKey encryptionSubkey) in
      let warnings : list KeyWarning := [] in
      let '(hasExpiry, expiry) := getSubkeyExpiry encryptionSubkey in
      if hasExpiry then
        expiry <- deref expiry ;;
        let nextRotation := calculateNextRotationTime expiry in
        warnings <-
          (if isExpired expiry now then
             let warning := mkKeyWarning NoValidEncryptionSubkey 0 0 0 in
             Ok (warnings ++ [warning])
           else if isOverdueForRotation nextRotation now then
             days <- getDaysUntilExpiry nextRotation now ;;
             let warning := mkKeyWarning SubkeyOverdueForRotation subkeyId days 0 in
             Ok (warnings ++ [warning])
           else if isDueForRotation nextRotation now then
             let warning := mkKeyWarning SubkeyDueForRotation subkeyId 0 0 in
             Ok (warnings ++ [warning])
           else Ok warnings) ;;
        if isExpiryTooLong expiry now then
          let warning := mkKeyWarning SubkeyLongExpiry subkeyId 0 0 in
          Ok (warnings ++ [warning])
        else Ok warnings
      else
        let warning := mkKeyWarning SubkeyNoExpiry subkeyId 0 0 in
        Ok (warnings ++ [warning])
  end.

Definition getPrimaryKeyWarnings (now : Time) (key : pgpkey.PgpKey)
  : result (list KeyWarning) :=
  let warnings : list KeyWarning := [] in
  r <- getEarliestUidExpiry key ;;
  let '(hasExpiry, expiry) := r in
  if hasExpiry then
    expiry <- deref expiry ;;
    let nextRotation := calculateNextRotationTime expiry in
    warnings <-
      (if isExpired expiry now then
         days <- getDaysSinceExpiry expiry now ;;
         let warning := mkKeyWarning PrimaryKeyExpired 0 0 days in
         Ok (warnings ++ [warning])
       else if isOverdueForRotation nextRotation now then
         days <- getDaysUntilExpiry expiry now ;;
         let warning := mkKeyWarning PrimaryKeyOverdueForRotation 0 days 0 in
         Ok (warnings ++ [warning])
       else if isDueForRotation nextRotation now then
         let warning := mkKeyWarning PrimaryKeyDueForRotation 0 0 0 in
         Ok (warnings ++ [warning])
       else Ok warnings) ;;
    if isExpiryTooLong expiry now then
      let warning := mkKeyWarning PrimaryKeyLongExpiry 0 0 0 in
      Ok (warnings ++ [warning])
    else Ok warnings
  else
    let warning := mkKeyWarning PrimaryKeyNoExpiry 0 0 0 in
    Ok (warnings ++ [warning]).

(** [GetKeyWarnings]: each evaluator reads the clock itself; [nowPrimary]
    and [nowSubkey] are the two readings, in the order they are taken. *)
Definition GetKeyWarnings (nowPrimary nowSubkey : Time) (key : pgpkey.PgpKey)
  : result (list KeyWarning) :=
  let warnings : list KeyWarning := [] in
  primary <- getPrimaryKeyWarnings nowPrimary key ;;
  let warnings := warnings ++ primary in
  subkey <- getEncryptionSubkeyWarnings nowSubkey key ;;
  let warnings := warnings ++ subkey in
  Ok warnings.

(** [getEarliestExpiryTime]: its first loop is the loop of
    [getEarliestUidExpiry]; the second goes on with every subkey. *)
Definition allExpiryTimes (key : pgpkey.PgpKey) : result (list Time) :=
  fold_left
    (fun (acc : result (list Time)) (subkey : openpgp.Subkey) =>
       allExpiryTimes <- acc ;;
       let '(hasExpiry, expiryTime) := getSubkeyExpiry subkey in
       if hasExpiry
       then t <- deref expiryTime ;; Ok (allExpiryTimes ++ [t])
       else Ok allExpiryTimes)
    (pgpkey.Subkeys key) (uidExpiryTimes key).

Definition getEarliestExpiryTime (key : pgpkey.PgpKey)
  : result (bool * option Time) :=
  allExpiryTimes <- allExpiryTimes key ;;
  if (0 <? length allExpiryTimes)%nat
  then earliestExpiry <- earliest allExpiryTimes ;;
       Ok (true, Some earliestExpiry)
  else Ok (false, None).

End status.

(** ** Decision procedures used to check the calendar on one 400-year cycle *)

Module time_checks.
Import time.

(** Bounded universal quantification over an interval of [Z], decided by
    evaluation. *)
Fixpoint forall_range (n : nat) (from : Z) (p : Z -> bool) : bool :=
  match n with
  | O => true
  | S n' => p from && forall_range n' (from + 1) p
  end.

Definition nextMonth (m : Z) : Z := if m =? 12 then 1 else m + 1.
Definition nextMonthYear (y m : Z) : Z := if m =? 12 then y + 1 else y.

Definition check_absDate (r : Z) : bool :=
  let '(y, m, d) := absDate r in
  (1 <=? y) && (y <=? 400) && (1 <=? m) && (m <=? 12)
  && (1 <=? d) && (d <=? daysIn m y) && (dateToDays y m d =? r).

Definition check_month (y m : Z) : bool :=
  let first := dateToDays y m 1 in
  (0 <=? first) && (first + daysIn m y <=? daysPer400Years)
  && forall_range (Z.to_nat (daysIn m y)) 0
       (fun k => match absDate (first + k) with
                 | (y', m', d') => (y' =? y) && (m' =? m) && (d' =? k + 1)
                 end)
  && (dateToDays (nextMonthYear y m) (nextMonth m) 1 =? first + daysIn m y).

Definition check_year (y : Z) : bool := forall_range 12 1 (check_month y).

End time_checks.

(** ** Vocabulary of the statements *)

Module spec.
Import time time_checks status.

Definition nanosPerDay : Z := secondsPerDay * Second.

(** The day number, counted from 0001-01-01, that [t.Date()] looks up. *)
Definition localDay (t : Time) : Z :=
  (unixNano t / Second + offset (loc t) + unixEpochDays * secondsPerDay)
  / secondsPerDay.

(** Midnight UTC on the first day of a month. *)
Definition monthStart (y m : Z) : Time := Date y m 1 0 0 0 0 UTC.

(** The first month that starts at [t] or later. *)
Definition firstMonthStartingAtLeast (t : Time) : Time :=
  let '(y, m, _) := Time_Date (In t UTC) in
  if unixNano t <=? unixNano (monthStart y m) then monthStart y m
  else monthStart (nextMonthYear y m) (nextMonth m).

(** The ceiling of acceptable expiries in the words "the first day of the
    first month starting at least 45 days after the beginning of the current
    month, plus 30 days". *)
Definition ceilingAsWorded (now : Time) : Time :=
  Add (firstMonthStartingAtLeast (Add (beginningOfMonth now) fortyFiveDays))
      thirtyDays.

(** The day-count helpers in the words "floor of the seconds over 86400,
    failing when negative". *)
Definition floorDays (d : Z) : Z := d / nanosPerDay.


Definition daysSinceAsWorded (expiry now : Time) : option Z :=
  let days := floorDays (unixNano now - unixNano expiry) in
  if days <? 0 then None else Some days.

(** A subkey that [getMostRecentEncryptionSubkey] keeps. *)
Definition eligible (subkey : openpgp.Subkey) : bool :=
  packet.FlagsValid (openpgp.Sig subkey)
  && (packet.FlagEncryptCommunications (openpgp.Sig subkey)
      || packet.FlagEncryptStorage (openpgp.Sig subkey)).

Definition created (subkey : openpgp.Subkey) : Time :=
  packet.CreationTime (openpgp.PublicKey subkey).

(** The expiry that an identity resolves to, if any. *)
Definition uidExpiry (key : pgpkey.PgpKey) (id : openpgp.Identity)
  : bool * option Time :=
  calculateExpiry (packet.CreationTime (pgpkey.PrimaryKey key))
                  (packet.KeyLifetimeSecs (openpgp.SelfSignature id)).

(** The expiries that the identities of a key resolve to. *)
Definition uidExpiries (key : pgpkey.PgpKey) : list Time :=
  flat_map (fun id => match uidExpiry key id with
                      | (true, Some e) => [e]
                      | _ => []
                      end)
           (pgpkey.Identities key).

Definition withIdentities (key : pgpkey.PgpKey) (ids : list openpgp.Identity)
  : pgpkey.PgpKey :=
  pgpkey.mkPgpKey (pgpkey.PrimaryKey key) ids (pgpkey.Subkeys key).

Definition withSubkeys (key : pgpkey.PgpKey) (sks : list openpgp.Subkey)
  : pgpkey.PgpKey :=
  pgpkey.mkPgpKey (pgpkey.PrimaryKey key) (pgpkey.Identities key) sks.

(** The rotation-state warning of the primary key, by the precedence
    expired, overdue, due. *)
Definition primaryRotationState (expiry now : Time) : list KeyWarning :=
  if Before expiry now then
    [mkKeyWarning PrimaryKeyExpired 0 0 (Z.quot (Sub now expiry) nanosPerDay)]
  else if Before (Add (Add expiry (- thirtyDays)) tenDays) now then
    [mkKeyWarning PrimaryKeyOverdueForRotation 0
                  (Z.quot (Sub expiry now) nanosPerDay) 0]
  else if Before (Add expiry (- thirtyDays)) now then
    [mkKeyWarning PrimaryKeyDueForRotation 0 0 0]
  else [].


(** Whether an evaluation returned a warning of the given kind. *)
Definition hasType (ty : WarningType) (r : result (list KeyWarning)) : bool :=
  match r with
  | Ok ws => existsb (fun w => WarningType_eqb (Type_ w) ty) ws
  | Panic _ => false
  end.

(** The order [sort.Reverse(ByCreated(_))] sorts by. *)
Definition laterCreated (x y : openpgp.Subkey) : bool :=
  Before (created y) (created x).

Definition notAfter (x y : openpgp.Subkey) : Prop :=
  unixNano (created x) <= unixNano (created y).

(** One pass of the inner loop of the insertion sort, on the sorted prefix
    taken from its end backwards. *)
Fixpoint insr {A : Type} (lt : A -> A -> bool) (x : A) (rp : list A) : list A :=
  match rp with
  | [] => [x]
  | y :: rp' => if lt x y then y :: insr lt x rp' else x :: rp
  end.

End spec.

(** ** Concrete keys and instants *)

Module examples.
Import time status spec.

Definition days (n : Z) : Duration := Hour * 24 * n.

(** 15 September 2018, noon UTC. *)
Definition noon : Time := Date 2018 9 15 12 0 0 0 UTC.


Definition mid_november : Time := Date 2018 11 15 0 0 0 0 UTC.

(** A binding signature with valid flags and the encrypt-communications
    capability. *)
Definition encryptionSig (lifetimeSecs : option Z) : packet.Signature :=
  packet.mkSignature lifetimeSecs true true false.

(** A signature with valid flags and no encryption capability. *)
Definition signingSig (lifetimeSecs : option Z) : packet.Signature :=
  packet.mkSignature lifetimeSecs true false false.

Definition identity (lifetimeSecs : option Z) : openpgp.Identity :=
  openpgp.mkIdentity (signingSig lifetimeSecs).

Definition subkey (creationTime : Time) (keyId : Z) (lifetimeSecs : option Z)
  : openpgp.Subkey :=
  openpgp.mkSubkey (packet.mkPublicKey creationTime keyId)
                   (encryptionSig lifetimeSecs).

Definition primary : packet.PublicKey := packet.mkPublicKey noon 1.

(** An encryption subkey created at [noon] that lives 30 days. *)
Definition thirtyDaySubkey : openpgp.Subkey :=
  subkey noon 7 (Some (30 * 86400)).

(** A later encryption subkey, created a day after [noon], that lives 60
    days. *)
Definition laterSubkey : openpgp.Subkey :=
  subkey (Add noon (days 1)) 8 (Some (60 * 86400)).

(** A subkey for signing only, created later still. *)
Definition signingSubkey : openpgp.Subkey :=
  openpgp.mkSubkey (packet.mkPublicKey (Add noon (days 2)) 9)
                   (signingSig None).

(** A key with one identity that never expires and [thirtyDaySubkey]. *)
Definition keyWithThirtyDaySubkey : pgpkey.PgpKey :=
  pgpkey.mkPgpKey primary [identity None] [thirtyDaySubkey].

(** A key whose only identity expires 60 days after [noon]. *)
Definition keyWithSixtyDayIdentity : pgpkey.PgpKey :=
  pgpkey.mkPgpKey primary [identity (Some (60 * 86400))] [].

(** A key with two identities, expiring 100 days and 5 days after [noon]. *)
Definition keyWithTwoIdentities : pgpkey.PgpKey :=
  pgpkey.mkPgpKey primary
    [identity (Some (100 * 86400)); identity (Some (5 * 86400))] [].

(** A key with three subkeys, two of them for encryption. *)
Definition keyWithThreeSubkeys : pgpkey.PgpKey :=
  pgpkey.mkPgpKey primary [identity None]
    [thirtyDaySubkey; laterSubkey; signingSubkey].

End examples.

(** ** Vocabulary of the further properties *)

Module props.
Import time status spec examples.

(** The expiries that the subkeys of a key resolve to, eligible or not. *)
Definition subkeyExpiries (key : pgpkey.PgpKey) : list Time :=
  flat_map (fun subkey => match getSubkeyExpiry subkey with
                          | (true, Some e) => [e]
                          | _ => []
                          end)
           (pgpkey.Subkeys key).

(** A signature that carries no key lifetime, or a lifetime of zero. *)
Definition neverExpires (sig : packet.Signature) : bool :=
  match packet.KeyLifetimeSecs sig with
  | None => true
  | Some secs => secs =? 0
  end.

Definition isPrimaryKind (ty : WarningType) : bool :=
  match ty with
  | PrimaryKeyDueForRotation | PrimaryKeyOverdueForRotation
  | PrimaryKeyExpired | PrimaryKeyNoExpiry | PrimaryKeyLongExpiry => true
  | _ => false
  end.

Definition isSubkeyKind (ty : WarningType) : bool :=
  match ty with
  | NoValidEncryptionSubkey | SubkeyDueForRotation
  | SubkeyOverdueForRotation | SubkeyNoExpiry | SubkeyLongExpiry => true
  | _ => false
  end.

(** [x] was created no earlier than [y]. *)
Definition notBefore (x y : openpgp.Subkey) : Prop :=
  unixNano (created y) <= unixNano (created x).

(** The state of the loop of [earliest] after the slice [times]. *)
Definition earliestLoop (times : list Time) (st : bool * Time) : bool * Time :=
  fold_left
    (fun (st : bool * Time) (t : Time) =>
       let '(set, earliestSoFar) := st in
       if negb set || Before t earliestSoFar then (true, t) else st)
    times st.

(** A clock eight hours west of UTC, in the evening of 30 September 2018
    (04:00 UTC on 1 October). *)
Definition pacific : Location := mkLocation (- 8 * 3600).

Definition lastEveningOfSeptember : Time :=
  mkTime (unixNano (Date 2018 9 30 20 0 0 0 pacific)) pacific.

(** A key created on 1 September 2018 at 02:00 UTC whose only identity
    lives 60 days: it expires on 31 October at 02:00 UTC. *)
Definition keyOfSeptember : pgpkey.PgpKey :=
  pgpkey.mkPgpKey (packet.mkPublicKey (Date 2018 9 1 2 0 0 0 UTC) 1)
                  [identity (Some (60 * 86400))] [].

(** A key with a never-expiring identity between two expiring ones. *)
Definition keyWithThreeIdentities : pgpkey.PgpKey :=
  pgpkey.mkPgpKey primary
    [identity (Some (100 * 86400)); identity None;
     identity (Some (5 * 86400))] [].

(** A key whose identity lives 60 days, with a signing subkey that lives
    10 days and an encryption subkey that lives 30 days. *)
Definition keyWithShortSigningSubkey : pgpkey.PgpKey :=
  pgpkey.mkPgpKey primary [identity (Some (60 * 86400))]
    [openpgp.mkSubkey (packet.mkPublicKey noon 9)
                      (signingSig (Some (10 * 86400)));
     thirtyDaySubkey].

End props.

(** * Properties *)

(** ** Facts about the calendar *)

Module time_facts.
Import time time_checks.

Lemma forall_range_spec (n : nat) (p : Z -> bool) :
  forall from, forall_range n from p = true ->
  forall z, from <= z < from + Z.of_nat n -> p z = true.
Proof.
  induction n as [|n IH]; intros from H z Hz.
  - simpl in Hz. lia.
  - simpl in H. apply andb_true_iff in H as [H0 H1].
    destruct (Z.eq_dec z from) as [->|Hne]; [assumption|].
    apply (IH (from + 1) H1). lia.
Qed.

Lemma isLeap_shift (y q : Z) : isLeap (y + 400 * q) = isLeap y.
Proof.
  unfold isLeap.
  replace ((y + 400 * q) mod 4) with (y mod 4)
    by (rewrite <- (Z.mod_add y (100 * q) 4) by lia; f_equal; lia).
  replace ((y + 400 * q) mod 100) with (y mod 100)
    by (rewrite <- (Z.mod_add y (4 * q) 100) by lia; f_equal; lia).
  replace ((y + 400 * q) mod 400) with (y mod 400)
    by (rewrite <- (Z.mod_add y q 400) by lia; f_equal; lia).
  reflexivity.
Qed.

Lemma daysIn_shift (m y q : Z) : daysIn m (y + 400 * q) = daysIn m y.
Proof. unfold daysIn. now rewrite isLeap_shift. Qed.

Lemma daysSinceEpoch_shift (y q : Z) :
  daysSinceEpoch (y + 400 * q) = daysSinceEpoch y + daysPer400Years * q.
Proof.
  unfold daysSinceEpoch.
  replace ((y + 400 * q - 1) / 400) with ((y - 1) / 400 + q)
    by (rewrite <- (Z.div_add (y - 1) q 400) by lia; f_equal; lia).
  cbv zeta.
  replace (y + 400 * q - 1 - 400 * ((y - 1) / 400 + q))
    with (y - 1 - 400 * ((y - 1) / 400)) by lia.
  unfold daysPer400Years. lia.
Qed.

Lemma dateToDays_shift (y m d q : Z) :
  dateToDays (y + 400 * q) m d = dateToDays y m d + daysPer400Years * q.
Proof.
  unfold dateToDays. rewrite daysSinceEpoch_shift, isLeap_shift. lia.
Qed.

Lemma monthDay_shift (y q yday : Z) :
  monthDay (y + 400 * q) yday = monthDay y yday.
Proof. unfold monthDay. now rewrite isLeap_shift. Qed.

Lemma absDate_shift (d q : Z) :
  absDate (d + daysPer400Years * q)
  = let '(y, m, dd) := absDate d in (y + 400 * q, m, dd).
Proof.
  unfold absDate.
  replace ((d + daysPer400Years * q) / daysPer400Years)
    with (d / daysPer400Years + q)
    by (rewrite <- (Z.div_add d q daysPer400Years) by (unfold daysPer400Years; lia);
        f_equal; lia).
  cbv zeta.
  replace (d + daysPer400Years * q - daysPer400Years * (d / daysPer400Years + q))
    with (d - daysPer400Years * (d / daysPer400Years)) by lia.
  set (d1 := d - daysPer400Years * (d / daysPer400Years)).
  set (n100 := d1 / daysPer100Years - Z.shiftr (d1 / daysPer100Years) 2).
  set (d2 := d1 - daysPer100Years * n100).
  set (n4 := d2 / daysPer4Years).
  set (d3 := d2 - daysPer4Years * n4).
  set (n1 := d3 / 365 - Z.shiftr (d3 / 365) 2).
  replace (400 * (d / daysPer400Years + q) + 100 * n100 + 4 * n4 + n1 + 1)
    with (400 * (d / daysPer400Years) + 100 * n100 + 4 * n4 + n1 + 1 + 400 * q)
    by lia.
  rewrite monthDay_shift.
  destruct (monthDay _ _). reflexivity.
Qed.

Lemma cycle_absDate :
  forall_range (Z.to_nat daysPer400Years) 0 check_absDate = true.
Proof. vm_cast_no_check (eq_refl true). Qed.

Lemma cycle_months : forall_range 400 1 check_year = true.
Proof. vm_cast_no_check (eq_refl true). Qed.

Lemma absDate_spec (days : Z) :
  forall y m d, absDate days = (y, m, d) ->
  1 <= m <= 12 /\ 1 <= d <= daysIn m y /\ dateToDays y m d = days.
Proof.
  intros y m d H.
  set (q := days / daysPer400Years).
  set (r := days mod daysPer400Years).
  assert (Hr : 0 <= r < daysPer400Years)
    by (apply Z.mod_pos_bound; unfold daysPer400Years; lia).
  assert (Hd : days = r + daysPer400Years * q)
    by (unfold q, r; pose proof (Z.div_mod days daysPer400Years);
        unfold daysPer400Years in *; lia).
  pose proof (forall_range_spec _ _ _ cycle_absDate r) as Hc.
  rewrite Z2Nat.id in Hc by (unfold daysPer400Years; lia).
  specialize (Hc ltac:(lia)).
  rewrite Hd, absDate_shift in H.
  unfold check_absDate in Hc.
  destruct (absDate r) as [[y0 m0] d0].
  assert (y = y0 + 400 * q /\ m = m0 /\ d = d0) as (-> & -> & ->)
    by (repeat split; congruence).
  rewrite !andb_true_iff in Hc.
  rewrite daysIn_shift, dateToDays_shift. lia.
Qed.

Lemma year_in_cycle (y : Z) :
  exists y0 q, y = y0 + 400 * q /\ 1 <= y0 <= 400.
Proof.
  exists ((y - 1) mod 400 + 1), ((y - 1) / 400).
  pose proof (Z.div_mod (y - 1) 400).
  pose proof (Z.mod_pos_bound (y - 1) 400). lia.
Qed.

Lemma check_month_ok (y0 m : Z) :
  1 <= y0 <= 400 -> 1 <= m <= 12 -> check_month y0 m = true.
Proof.
  intros Hy Hm.
  pose proof (forall_range_spec _ _ _ cycle_months y0 ltac:(lia)) as Hc.
  unfold check_year in Hc.
  exact (forall_range_spec _ _ _ Hc m ltac:(lia)).
Qed.

Lemma absDate_in_month (y m k : Z) :
  1 <= m <= 12 -> 0 <= k < daysIn m y ->
  absDate (dateToDays y m 1 + k) = (y, m, k + 1).
Proof.
  intros Hm Hk.
  destruct (year_in_cycle y) as (y0 & q & -> & Hy0).
  rewrite daysIn_shift in Hk.
  pose proof (check_month_ok y0 m Hy0 Hm) as Hc.
  unfold check_month in Hc. rewrite !andb_true_iff in Hc.
  destruct Hc as [[_ Hall] _].
  pose proof (forall_range_spec _ _ _ Hall k) as Hk'.
  rewrite Z2Nat.id in Hk' by lia. specialize (Hk' ltac:(lia)).
  rewrite dateToDays_shift.
  replace (dateToDays y0 m 1 + daysPer400Years * q + k)
    with (dateToDays y0 m 1 + k + daysPer400Years * q) by lia.
  rewrite absDate_shift.
  destruct (absDate (dateToDays y0 m 1 + k)) as [[y' m'] d'].
  rewrite !andb_true_iff in Hk'.
  f_equal; [f_equal|]; lia.
Qed.

Lemma nextMonthYear_shift (y q m : Z) :
  nextMonthYear (y + 400 * q) m = nextMonthYear y m + 400 * q.
Proof. unfold nextMonthYear. destruct (m =? 12); lia. Qed.

Lemma first_of_next_month (y m : Z) :
  1 <= m <= 12 ->
  dateToDays (nextMonthYear y m) (nextMonth m) 1
  = dateToDays y m 1 + daysIn m y.
Proof.
  intros Hm.
  destruct (year_in_cycle y) as (y0 & q & -> & Hy0).
  pose proof (check_month_ok y0 m Hy0 Hm) as Hc.
  unfold check_month in Hc. rewrite !andb_true_iff in Hc.
  rewrite nextMonthYear_shift, !dateToDays_shift, daysIn_shift. lia.
Qed.

Lemma daysIn_bounds (m y : Z) : 1 <= m <= 12 -> 28 <= daysIn m y <= 31.
Proof.
  intros Hm. unfold daysIn.
  assert (m = 1 \/ m = 2 \/ m = 3 \/ m = 4 \/ m = 5 \/ m = 6 \/ m = 7
          \/ m = 8 \/ m = 9 \/ m = 10 \/ m = 11 \/ m = 12) as Hcase by lia.
  repeat (destruct Hcase as [->|Hcase]); try subst m;
    destruct (isLeap y); simpl; lia.
Qed.

Lemma nextMonth_range (m : Z) : 1 <= m <= 12 -> 1 <= nextMonth m <= 12.
Proof. unfold nextMonth. destruct (Z.eqb_spec m 12); lia. Qed.

End time_facts.

(** ** The insertion sort on subkeys *)

Module sort_facts.
Import time status spec.

Lemma insr_length {A : Type} (lt : A -> A -> bool) (x : A) (rp : list A) :
  length (insr lt x rp) = S (length rp).
Proof.
  induction rp as [|y rp IH]; simpl; [reflexivity|].
  destruct (lt x y); simpl; congruence.
Qed.

Lemma insr_perm {A : Type} (lt : A -> A -> bool) (x : A) (rp : list A) :
  Permutation (insr lt x rp) (x :: rp).
Proof.
  induction rp as [|y rp IH]; simpl; [reflexivity|].
  destruct (lt x y); [|reflexivity].
  rewrite IH. apply perm_swap.
Qed.

Lemma insr_sorted (x : openpgp.Subkey) (rp : list openpgp.Subkey) :
  StronglySorted notAfter rp -> StronglySorted notAfter (insr laterCreated x rp).
Proof.
  induction 1 as [|y rp Hs IH Hall]; simpl.
  - constructor; constructor.
  - unfold laterCreated at 1, Before.
    destruct (Z.ltb_spec (unixNano (created y)) (unixNano (created x))) as [Hlt|Hge].
    + constructor; [assumption|].
      apply (Permutation_Forall (Permutation_sym (insr_perm _ _ _))).
      constructor; [unfold notAfter; lia | assumption].
    + constructor; [constructor; assumption|].
      constructor; [exact Hge|].
      eapply Forall_impl; [|exact Hall].
      unfold notAfter. intros; lia.
Qed.

Lemma fold_insr_perm {A : Type} (lt : A -> A -> bool) (l rp : list A) :
  Permutation (fold_left (fun rp x => insr lt x rp) l rp) (rp ++ l).
Proof.
  revert rp. induction l as [|x l IH]; intros rp; simpl.
  - now rewrite app_nil_r.
  - rewrite IH, insr_perm. apply Permutation_middle.
Qed.

Lemma fold_insr_sorted (l rp : list openpgp.Subkey) :
  StronglySorted notAfter rp ->
  StronglySorted notAfter (fold_left (fun rp x => insr laterCreated x rp) l rp).
Proof.
  revert rp. induction l as [|x l IH]; intros rp H; simpl; [assumption|].
  apply IH, insr_sorted, H.
Qed.

Lemma sorted_app_last (l : list openpgp.Subkey) (h : openpgp.Subkey) :
  StronglySorted notAfter (l ++ [h]) ->
  forall x, List.In x (l ++ [h]) -> notAfter x h.
Proof.
  induction l as [|a l IH]; simpl; intros H x Hx.
  - destruct Hx as [<-|[]]. unfold notAfter. lia.
  - inversion H as [|? ? Hs Hall]; subst.
    destruct Hx as [<-|Hx].
    + rewrite Forall_forall in Hall. apply Hall, in_or_app. right. now left.
    + now apply IH.
Qed.

(** *** The loops of the sort, on the slice *)

Lemma nth_error_middle {A : Type} (pre post : list A) (x : A) :
  nth_error (pre ++ x :: post) (length pre) = Some x.
Proof. induction pre; simpl; auto. Qed.

Lemma firstn_middle {A : Type} (pre post : list A) :
  firstn (length pre) (pre ++ post) = pre.
Proof.
  rewrite firstn_app, Nat.sub_diag, firstn_all. simpl. apply app_nil_r.
Qed.

Lemma skipn_middle {A : Type} (pre post : list A) :
  skipn (length pre) (pre ++ post) = post.
Proof.
  rewrite skipn_app, Nat.sub_diag, skipn_all. reflexivity.
Qed.

Lemma Swap_adjacent (pre post : list openpgp.Subkey) (x y : openpgp.Subkey) :
  ByCreated_Swap (pre ++ y :: x :: post) (S (length pre)) (length pre)
  = pre ++ x :: y :: post.
Proof.
  unfold ByCreated_Swap.
  rewrite nth_error_middle.
  replace (nth_error (pre ++ y :: x :: post) (S (length pre))) with (Some x).
  2:{ replace (pre ++ y :: x :: post) with ((pre ++ [y]) ++ x :: post)
        by (rewrite <- app_assoc; reflexivity).
      replace (S (length pre)) with (length (pre ++ [y]))
        by (rewrite length_app; simpl; lia).
      now rewrite nth_error_middle. }
  replace (firstn (S (length pre)) (pre ++ y :: x :: post)) with (pre ++ [y]).
  2:{ replace (pre ++ y :: x :: post) with ((pre ++ [y]) ++ x :: post)
        by (rewrite <- app_assoc; reflexivity).
      replace (S (length pre)) with (length (pre ++ [y]))
        by (rewrite length_app; simpl; lia).
      now rewrite firstn_middle. }
  replace (skipn (S (S (length pre))) (pre ++ y :: x :: post)) with post.
  2:{ replace (pre ++ y :: x :: post) with ((pre ++ [y; x]) ++ post)
        by (rewrite <- app_assoc; reflexivity).
      replace (S (S (length pre))) with (length (pre ++ [y; x]))
        by (rewrite length_app; simpl; lia).
      now rewrite skipn_middle. }
  rewrite <- !app_assoc. cbn [app].
  rewrite firstn_middle.
  replace (skipn (S (length pre)) (pre ++ y :: y :: post)) with (y :: post).
  2:{ replace (pre ++ y :: y :: post) with ((pre ++ [y]) ++ y :: post)
        by (rewrite <- app_assoc; reflexivity).
      replace (S (length pre)) with (length (pre ++ [y]))
        by (rewrite length_app; simpl; lia).
      now rewrite skipn_middle. }
  reflexivity.
Qed.

Lemma Less_adjacent (pre post : list openpgp.Subkey) (x y : openpgp.Subkey) :
  ByCreated_Less (pre ++ y :: x :: post) (length pre) (S (length pre))
  = laterCreated x y.
Proof.
  unfold ByCreated_Less. rewrite nth_error_middle.
  replace (pre ++ y :: x :: post) with ((pre ++ [y]) ++ x :: post)
    by (rewrite <- app_assoc; reflexivity).
  replace (S (length pre)) with (length (pre ++ [y]))
    by (rewrite length_app; simpl; lia).
  rewrite nth_error_middle. reflexivity.
Qed.

(** The inner loop moves the element at index [length rp] down the sorted
    prefix [rev rp]. *)
Lemma sink_insr (rp post : list openpgp.Subkey) (x : openpgp.Subkey) :
  sort.sink 0 (sort.Reverse (rev rp ++ x :: post : ByCreated)) (length rp)
  = sort.Reverse (rev (insr laterCreated x rp) ++ post : ByCreated).
Proof.
  revert post. induction rp as [|y rp IH]; intros post; [reflexivity|].
  cbn [length sort.sink rev insr].
  change (0 <? S (length rp))%nat with true. cbn [andb].
  unfold sort.Reverse at 1 2. cbn [sort.Less sort.reverse_Interface sort.inner
    ByCreated_Interface sort.Swap].
  rewrite <- app_assoc. cbn [app].
  rewrite <- (length_rev rp).
  rewrite Less_adjacent.
  destruct (laterCreated x y).
  - rewrite Swap_adjacent. rewrite length_rev.
    fold (sort.Reverse (rev rp ++ x :: y :: post : ByCreated)).
    rewrite IH. cbn [rev]. now rewrite <- app_assoc.
  - cbn [rev]. rewrite <- !app_assoc. reflexivity.
Qed.

Lemma insertion_loop (rest rp : list openpgp.Subkey) :
  fold_left (sort.sink 0) (seq (length rp) (length rest))
            (sort.Reverse (rev rp ++ rest : ByCreated))
  = sort.Reverse
      (rev (fold_left (fun rp x => insr laterCreated x rp) rest rp) : ByCreated).
Proof.
  revert rp. induction rest as [|x rest IH]; intros rp.
  - simpl. now rewrite app_nil_r.
  - cbn [length seq fold_left].
    rewrite sink_insr.
    rewrite <- (insr_length laterCreated x rp).
    apply IH.
Qed.

Lemma Sort_Reverse_ByCreated (l : list openpgp.Subkey) :
  sort.inner (sort.Sort (sort.Reverse (l : ByCreated)))
  = rev (fold_left (fun rp x => insr laterCreated x rp) l []).
Proof.
  unfold sort.Sort, sort.insertionSort.
  destruct l as [|x rest]; [reflexivity|].
  change (sort.Len (sort.Reverse (x :: rest : ByCreated))) with (S (length rest)).
  replace (S (length rest) - (0 + 1))%nat with (length rest) by lia.
  pose proof (insertion_loop rest [x]) as H.
  cbn [length rev app] in H. cbn [Nat.add].
  rewrite H. reflexivity.
Qed.

(** What the subkeys are after the sort: the same subkeys, the first of
    them created no earlier than any other. *)
Lemma sorted_head (l : list openpgp.Subkey) :
  l <> [] ->
  exists h rest,
    sort.inner (sort.Sort (sort.Reverse (l : ByCreated))) = h :: rest
    /\ List.In h l
    /\ forall x, List.In x l -> Before (created h) (created x) = false.
Proof.
  intros Hne. rewrite Sort_Reverse_ByCreated.
  set (rp := fold_left (fun rp x => insr laterCreated x rp) l []).
  assert (Hp : Permutation rp l) by apply (fold_insr_perm laterCreated l []).
  assert (Hs : StronglySorted notAfter rp)
    by (apply fold_insr_sorted; constructor).
  destruct (rev rp) as [|h rest] eqn:E.
  - exfalso. apply Hne.
    apply Permutation_nil. rewrite <- Hp.
    rewrite <- (rev_involutive rp), E. reflexivity.
  - assert (Erp : rp = rev rest ++ [h])
      by (rewrite <- (rev_involutive rp), E; reflexivity).
    exists h, rest. split; [reflexivity|]. split.
    + apply (Permutation_in _ Hp). rewrite Erp. apply in_or_app. right. now left.
    + intros x Hx. rewrite Erp in Hs.
      pose proof (sorted_app_last _ _ Hs x) as Hx'.
      unfold Before. apply Z.ltb_ge. apply Hx'.
      rewrite <- Erp. apply (Permutation_in _ (Permutation_sym Hp)), Hx.
Qed.

End sort_facts.

(** ** Facts about instants, months and day counts *)

Module status_facts.
Import time time_checks time_facts status spec.

Lemma Second_eq : Second = 1000000000.
Proof. reflexivity. Qed.

Lemma thirtyDays_eq : thirtyDays = 30 * (secondsPerDay * Second).
Proof. reflexivity. Qed.

Lemma tenDays_eq : tenDays = 10 * (secondsPerDay * Second).
Proof. reflexivity. Qed.

Lemma fortyFiveDays_eq : fortyFiveDays = 45 * (secondsPerDay * Second).
Proof. reflexivity. Qed.

Lemma nanosPerDay_eq : nanosPerDay = 86400000000000.
Proof. reflexivity. Qed.

Lemma Time_Date_localDay (t : Time) : Time_Date t = absDate (localDay t).
Proof. reflexivity. Qed.

(** An instant lies within the day that [localDay] names. *)
Lemma localDay_bounds (t : Time) :
  (localDay t - unixEpochDays) * nanosPerDay - offset (loc t) * Second
  <= unixNano t
  < (localDay t + 1 - unixEpochDays) * nanosPerDay - offset (loc t) * Second.
Proof.
  unfold localDay, nanosPerDay. rewrite Second_eq.
  unfold secondsPerDay, unixEpochDays.
  set (s := unixNano t / 1000000000).
  pose proof (Z.div_mod (unixNano t) 1000000000 ltac:(lia)) as H1.
  pose proof (Z.mod_pos_bound (unixNano t) 1000000000 ltac:(lia)) as H2.
  fold s in H1.
  set (a := s + offset (loc t) + 719162 * 86400).
  pose proof (Z.div_mod a 86400 ltac:(lia)) as H3.
  pose proof (Z.mod_pos_bound a 86400 ltac:(lia)) as H4.
  subst a. lia.
Qed.

Lemma dateToDays_day (y m d : Z) : dateToDays y m d = dateToDays y m 1 + (d - 1).
Proof. unfold dateToDays. lia. Qed.

Lemma unixNano_Date_first (y m : Z) (l : Location) :
  unixNano (Date y m 1 0 0 0 0 l)
  = (dateToDays y m 1 - unixEpochDays) * nanosPerDay - offset l * Second.
Proof. unfold Date, nanosPerDay. cbn [unixNano]. lia. Qed.

Lemma beginningOfMonth_eq (now : Time) (y m d : Z) :
  Time_Date now = (y, m, d) ->
  beginningOfMonth now = In (Date y m 1 0 0 0 0 (loc now)) UTC.
Proof. intros H. unfold beginningOfMonth. now rewrite H. Qed.

(** [beginningOfMonth] is an instant of the same month, not after [now] and
    less than 31 days before it. *)
Lemma beginningOfMonth_bounds (now : Time) :
  unixNano (beginningOfMonth now) <= unixNano now
  < unixNano (beginningOfMonth now) + 31 * nanosPerDay.
Proof.
  destruct (Time_Date now) as [[y m] d] eqn:E.
  rewrite (beginningOfMonth_eq _ _ _ _ E).
  cbn [In unixNano]. rewrite unixNano_Date_first.
  rewrite Time_Date_localDay in E.
  destruct (absDate_spec _ _ _ _ E) as (Hm & Hd & Hday).
  pose proof (daysIn_bounds m y Hm).
  rewrite dateToDays_day in Hday.
  pose proof (localDay_bounds now) as Hb.
  rewrite nanosPerDay_eq in *. lia.
Qed.

Lemma unixNano_Add (t : Time) (d : Duration) :
  unixNano (Add t d) = unixNano t + d.
Proof. reflexivity. Qed.

Lemma unixNano_In (t : Time) (l : Location) : unixNano (In t l) = unixNano t.
Proof. reflexivity. Qed.

Lemma nextExpiryTime_unfold (now : Time) :
  nextExpiryTime now
  = In (Add (beginningOfMonth (Add (beginningOfMonth now) fortyFiveDays))
            thirtyDays) UTC.
Proof. reflexivity. Qed.

(** The ceiling of acceptable expiries is more than 44 days after the
    beginning of the current month, hence after [now]. *)
Lemma nextExpiryTime_after_now (now : Time) :
  unixNano now < unixNano (nextExpiryTime now).
Proof.
  rewrite nextExpiryTime_unfold, unixNano_In, unixNano_Add.
  pose proof (beginningOfMonth_bounds now) as H1.
  pose proof (beginningOfMonth_bounds
                (Add (beginningOfMonth now) fortyFiveDays)) as H2.
  rewrite unixNano_Add in H2.
  set (F := unixNano (beginningOfMonth now)) in *.
  set (X := unixNano (beginningOfMonth
                        (Add (beginningOfMonth now) fortyFiveDays))) in *.
  clearbody F X.
  rewrite thirtyDays_eq. rewrite fortyFiveDays_eq in H2.
  fold nanosPerDay in *. rewrite nanosPerDay_eq in *. lia.
Qed.

(** An expiry before [now] is not beyond the ceiling. *)
Lemma expired_not_too_long (expiry now : Time) :
  Before expiry now = true -> isExpiryTooLong expiry now = false.
Proof.
  intros H. unfold isExpiryTooLong, After. unfold Before in H.
  pose proof (nextExpiryTime_after_now now) as Hc.
  set (c := unixNano (nextExpiryTime now)) in *. clearbody c.
  apply Z.ltb_lt in H. apply Z.ltb_ge. lia.
Qed.


(** *** The month that the ceiling is counted from *)

Lemma monthStart_unixNano (y m : Z) :
  unixNano (monthStart y m) = (dateToDays y m 1 - unixEpochDays) * nanosPerDay.
Proof. unfold monthStart. rewrite unixNano_Date_first. simpl. lia. Qed.

(** The bounds of [beginningOfMonth_bounds], with the length of the month. *)
Lemma month_of_instant (t : Time) (y m d : Z) :
  Time_Date t = (y, m, d) ->
  1 <= m <= 12
  /\ (dateToDays y m 1 - unixEpochDays) * nanosPerDay - offset (loc t) * Second
     <= unixNano t
     < (dateToDays y m 1 + daysIn m y - unixEpochDays) * nanosPerDay
       - offset (loc t) * Second.
Proof.
  intros E. rewrite Time_Date_localDay in E.
  destruct (absDate_spec _ _ _ _ E) as (Hm & Hd & Hday).
  rewrite dateToDays_day in Hday.
  pose proof (localDay_bounds t) as Hb.
  rewrite nanosPerDay_eq in *. split; [assumption|]. lia.
Qed.

(** With a zone less than a day away from UTC, [firstOfNextMonth] is
    midnight UTC on the first day of the month after the current one. *)
Lemma firstOfNextMonth_next (now : Time) (y m d : Z) :
  Time_Date now = (y, m, d) ->
  Z.abs (offset (loc now)) < secondsPerDay ->
  firstOfNextMonth now = monthStart (nextMonthYear y m) (nextMonth m).
Proof.
  intros E Hoff.
  destruct (month_of_instant _ _ _ _ E) as (Hm & _).
  unfold firstOfNextMonth. rewrite (beginningOfMonth_eq _ _ _ _ E).
  set (X := Add (In (Date y m 1 0 0 0 0 (loc now)) UTC) fortyFiveDays).
  assert (HX : unixNano X
               = (dateToDays y m 1 + 45 - unixEpochDays) * nanosPerDay
                 - offset (loc now) * Second).
  { unfold X. cbn [Add In unixNano]. rewrite unixNano_Date_first.
    rewrite fortyFiveDays_eq. fold nanosPerDay. lia. }
  assert (HlX : loc X = UTC) by reflexivity.
  pose proof (localDay_bounds X) as Hb. rewrite HlX, HX in Hb.
  cbn [offset UTC] in Hb.
  pose proof (daysIn_bounds m y Hm) as Hdi.
  pose proof (first_of_next_month y m Hm) as Hnext.
  pose proof (nextMonth_range m Hm) as Hm'.
  pose proof (daysIn_bounds (nextMonth m) (nextMonthYear y m) Hm') as Hdi'.
  set (k := localDay X - dateToDays (nextMonthYear y m) (nextMonth m) 1).
  assert (Hk : 0 <= k < daysIn (nextMonth m) (nextMonthYear y m)).
  { unfold k. rewrite Hnext. unfold secondsPerDay in Hoff.
    rewrite nanosPerDay_eq, Second_eq in Hb. lia. }
  assert (EX : Time_Date X = (nextMonthYear y m, nextMonth m, k + 1)).
  { rewrite Time_Date_localDay.
    replace (localDay X)
      with (dateToDays (nextMonthYear y m) (nextMonth m) 1 + k)
      by (unfold k; lia).
    now apply absDate_in_month. }
  rewrite (beginningOfMonth_eq _ _ _ _ EX). reflexivity.
Qed.

(** [firstMonthStartingAtLeast] is what its name says. *)
Lemma firstMonthStartingAtLeast_least (t : Time) :
  unixNano t <= unixNano (firstMonthStartingAtLeast t)
  /\ forall y m, 1 <= m <= 12 ->
       unixNano t <= unixNano (monthStart y m) ->
       unixNano (firstMonthStartingAtLeast t) <= unixNano (monthStart y m).
Proof.
  unfold firstMonthStartingAtLeast.
  destruct (Time_Date (In t UTC)) as [[y0 m0] d0] eqn:E.
  destruct (month_of_instant _ _ _ _ E) as (Hm0 & Hb).
  cbn [In loc unixNano offset UTC] in Hb.
  pose proof (first_of_next_month y0 m0 Hm0) as Hnext.
  pose proof (daysIn_bounds m0 y0 Hm0) as Hdi.
  destruct (Z.leb_spec (unixNano t) (unixNano (monthStart y0 m0))) as [Hle|Hgt].
  - split; [assumption|]. intros y m _ H.
    rewrite !monthStart_unixNano in *. rewrite nanosPerDay_eq in *. lia.
  - rewrite !monthStart_unixNano in *. rewrite Hnext.
    rewrite nanosPerDay_eq in *.
    split; [lia|]. intros y m Hm H. rewrite monthStart_unixNano in H.
    rewrite nanosPerDay_eq in H.
    set (k := dateToDays y m 1 - dateToDays y0 m0 1).
    assert (Hk0 : 0 < k) by (unfold k; lia).
    destruct (Z.lt_ge_cases k (daysIn m0 y0)) as [Hlt|Hge].
    + exfalso.
      pose proof (absDate_in_month y0 m0 k Hm0 ltac:(lia)) as H1.
      pose proof (daysIn_bounds m y Hm) as Hdi'.
      pose proof (absDate_in_month y m 0 Hm ltac:(lia)) as H2.
      replace (dateToDays y0 m0 1 + k) with (dateToDays y m 1 + 0) in H1
        by (unfold k; lia).
      rewrite H2 in H1. injection H1 as _ _ H1. lia.
    + unfold k in Hge. rewrite monthStart_unixNano, nanosPerDay_eq. lia.
Qed.

(** *** Day counts *)

Lemma Seconds_per_day (d : Duration) :
  (Seconds d / 86400 == d # 86400000000000)%Q.
Proof.
  unfold Seconds, Qdiv, Qeq. rewrite Second_eq.
  cbn [Qinv inject_Z Qnum Qden Qmult]. lia.
Qed.

(** The day count is the quotient by a day, rounded towards zero. *)
Lemma inDays_quot (d : Duration) : inDays d = Z.quot d nanosPerDay.
Proof.
  unfold inDays, int_of_float.
  assert (Hle : Qle_bool 0 (Seconds d / 86400) = (0 <=? d)).
  { apply eq_true_iff_eq. rewrite Qle_bool_iff, Seconds_per_day, Z.leb_le.
    unfold Qle. cbn [Qnum Qden]. lia. }
  rewrite Hle, nanosPerDay_eq.
  destruct (Z.leb_spec 0 d) as [Hd|Hd].
  - rewrite (Qfloor_comp _ _ (Seconds_per_day d)).
    unfold Qfloor. symmetry. apply Z.quot_div_nonneg; lia.
  - rewrite (Qceiling_comp _ _ (Seconds_per_day d)).
    unfold Qceiling, Qfloor, Qopp. cbn [Qnum Qden].
    rewrite <- (Z.opp_involutive d) at 2.
    rewrite Z.quot_opp_l by lia.
    rewrite Z.quot_div_nonneg by lia. reflexivity.
Qed.

End status_facts.

(** ** The loops and helpers of the evaluators *)

Module eval_facts.
Import time time_checks time_facts status spec status_facts sort_facts.

Lemma Sub_le_iff (t u : Time) (c : Z) :
  - 2 ^ 63 < c < 2 ^ 63 - 1 ->
  (Sub t u <= c <-> unixNano t - unixNano u <= c).
Proof.
  unfold Sub, minDuration, maxDuration. intros H.
  destruct (Z.ltb_spec (unixNano t - unixNano u) (- 2 ^ 63)); [lia|].
  destruct (Z.ltb_spec (2 ^ 63 - 1) (unixNano t - unixNano u)); lia.
Qed.

Lemma quot_day_neg_iff (d : Z) :
  Z.quot d nanosPerDay < 0 <-> d <= - nanosPerDay.
Proof.
  rewrite nanosPerDay_eq. Z.to_euclidean_division_equations. lia.
Qed.

Lemma getDaysUntilExpiry_eq (expiry now : Time) :
  getDaysUntilExpiry expiry now
  = if unixNano expiry - unixNano now <=? - nanosPerDay
    then Panic "getDaysUntilExpiry: expiry has already passed"
    else Ok (Z.quot (Sub expiry now) nanosPerDay).
Proof.
  unfold getDaysUntilExpiry. rewrite inDays_quot.
  pose proof (quot_day_neg_iff (Sub expiry now)) as Hq.
  pose proof (Sub_le_iff expiry now (- nanosPerDay)) as Hs.
  rewrite nanosPerDay_eq in Hs at 1 2. specialize (Hs ltac:(lia)).
  destruct (Z.ltb_spec (Z.quot (Sub expiry now) nanosPerDay) 0);
    destruct (Z.leb_spec (unixNano expiry - unixNano now) (- nanosPerDay));
    try reflexivity; lia.
Qed.

Lemma getDaysSinceExpiry_eq (expiry now : Time) :
  getDaysSinceExpiry expiry now
  = if unixNano now - unixNano expiry <=? - nanosPerDay
    then Panic "getDaysSinceExpiry: expiry is in the future"
    else Ok (Z.quot (Sub now expiry) nanosPerDay).
Proof.
  unfold getDaysSinceExpiry. rewrite inDays_quot.
  pose proof (quot_day_neg_iff (Sub now expiry)) as Hq.
  pose proof (Sub_le_iff now expiry (- nanosPerDay)) as Hs.
  rewrite nanosPerDay_eq in Hs at 1 2. specialize (Hs ltac:(lia)).
  destruct (Z.ltb_spec (Z.quot (Sub now expiry) nanosPerDay) 0);
    destruct (Z.leb_spec (unixNano now - unixNano expiry) (- nanosPerDay));
    try reflexivity; lia.
Qed.

(** *** Identities *)

Lemma calculateExpiry_shape (creationTime : Time) (lifetimeSecs : option Z) :
  calculateExpiry creationTime lifetimeSecs = (false, None)
  \/ exists e, calculateExpiry creationTime lifetimeSecs = (true, Some e)
               /\ loc e = UTC.
Proof.
  unfold calculateExpiry.
  destruct lifetimeSecs as [secs|]; [|now left].
  destruct (secs =? 0); [now left|].
  right. eexists. split; reflexivity.
Qed.

Lemma uidExpiryTimes_loop (key : pgpkey.PgpKey) (ids : list openpgp.Identity)
      (acc : list Time) :
  fold_left
    (fun (acc : result (list Time)) (id : openpgp.Identity) =>
       allExpiryTimes <- acc ;;
       let '(hasExpiry, expiryTime) :=
         calculateExpiry
           (packet.CreationTime (pgpkey.PrimaryKey key))
           (packet.KeyLifetimeSecs (openpgp.SelfSignature id)) in
       if hasExpiry
       then t <- deref expiryTime ;; Ok (allExpiryTimes ++ [t])
       else Ok allExpiryTimes)
    ids (Ok acc)
  = Ok (acc ++ flat_map (fun id => match uidExpiry key id with
                                   | (true, Some e) => [e]
                                   | _ => []
                                   end) ids).
Proof.
  revert acc. induction ids as [|id ids IH]; intros acc.
  - simpl. now rewrite app_nil_r.
  - cbn [fold_left flat_map bind]. unfold uidExpiry at 1.
    destruct (calculateExpiry_shape
                (packet.CreationTime (pgpkey.PrimaryKey key))
                (packet.KeyLifetimeSecs (openpgp.SelfSignature id)))
      as [E|(e & E & _)]; rewrite E; cbn [deref bind].
    + rewrite IH. reflexivity.
    + rewrite IH, <- app_assoc. reflexivity.
Qed.

Lemma uidExpiryTimes_eq (key : pgpkey.PgpKey) :
  uidExpiryTimes key = Ok (uidExpiries key).
Proof. unfold uidExpiryTimes. now rewrite uidExpiryTimes_loop. Qed.

Lemma earliest_loop (times : list Time) (set : bool) (sofar : Time) :
  let '(set', e) :=
    fold_left
      (fun (st : bool * Time) (t : Time) =>
         let '(set, earliestSoFar) := st in
         if negb set || Before t earliestSoFar then (true, t) else st)
      times (set, sofar) in
  (set = true \/ times <> [] -> set' = true)
  /\ (set' = true ->
      (List.In e times \/ (set = true /\ e = sofar))
      /\ (forall t, List.In t times -> Before t e = false)
      /\ (set = true -> Before sofar e = false)).
Proof.
  revert set sofar. induction times as [|t times IH]; intros set sofar.
  - cbn [fold_left]. split; [intros [H|H]; congruence|].
    intros ->. repeat split; auto.
    + intros t [].
    + intros _. unfold Before. apply Z.ltb_irrefl.
  - cbn [fold_left].
    destruct (negb set || Before t sofar) eqn:Hc.
    + specialize (IH true t).
      destruct (fold_left _ times (true, t)) as [set' e].
      destruct IH as [IH1 IH2]. split; [intros _; apply IH1; now left|].
      intros Hs. destruct (IH2 Hs) as (Hin & Hall & Hsofar).
      specialize (Hsofar eq_refl).
      repeat split.
      * left. destruct Hin as [Hin|[_ ->]]; [now right | now left].
      * intros t' [<-|Ht']; [exact Hsofar | now apply Hall].
      * intros ->. simpl in Hc. unfold Before in *.
        apply Z.ltb_lt in Hc. apply Z.ltb_ge in Hsofar. apply Z.ltb_ge. lia.
    + apply orb_false_iff in Hc as [Hset Hb].
      apply negb_false_iff in Hset. subst set.
      specialize (IH true sofar).
      destruct (fold_left _ times (true, sofar)) as [set' e].
      destruct IH as [IH1 IH2]. split; [intros _; apply IH1; now left|].
      intros Hs. destruct (IH2 Hs) as (Hin & Hall & Hsofar).
      specialize (Hsofar eq_refl).
      repeat split.
      * destruct Hin as [Hin|[_ ->]]; [left; now right | right; auto].
      * intros t' [<-|Ht']; [|now apply Hall].
        unfold Before in *.
        apply Z.ltb_ge in Hb. apply Z.ltb_ge in Hsofar. apply Z.ltb_ge. lia.
      * intros _. exact Hsofar.
Qed.

(** [earliest] returns a time of the slice that none of them is before. *)
Lemma earliest_spec (times : list Time) :
  times <> [] ->
  exists e, earliest times = Ok e
            /\ List.In e times
            /\ forall t, List.In t times -> Before t e = false.
Proof.
  intros Hne. unfold earliest.
  destruct times as [|t0 times']; [congruence|].
  cbn [length Nat.eqb].
  pose proof (earliest_loop (t0 :: times') false zero) as H.
  destruct (fold_left _ (t0 :: times') (false, zero)) as [set' e].
  destruct H as [H1 H2].
  specialize (H1 (or_intror Hne)). destruct (H2 H1) as (Hin & Hall & _).
  exists e. repeat split; auto.
  destruct Hin as [Hin|[Hf _]]; [assumption | discriminate].
Qed.

Lemma getEarliestUidExpiry_none (key : pgpkey.PgpKey) :
  uidExpiries key = [] -> getEarliestUidExpiry key = Ok (false, None).
Proof.
  intros H. unfold getEarliestUidExpiry.
  rewrite uidExpiryTimes_eq, H. reflexivity.
Qed.

Lemma getEarliestUidExpiry_some (key : pgpkey.PgpKey) :
  uidExpiries key <> [] ->
  exists e, getEarliestUidExpiry key = Ok (true, Some e)
            /\ List.In e (uidExpiries key)
            /\ forall t, List.In t (uidExpiries key) -> Before t e = false.
Proof.
  intros H. unfold getEarliestUidExpiry.
  rewrite uidExpiryTimes_eq. cbn [bind].
  destruct (earliest_spec _ H) as (e & He & Hin & Hall).
  exists e. rewrite He. cbn [bind].
  destruct (uidExpiries key); [congruence|]. simpl. auto.
Qed.

(** The primary-key evaluator, once the earliest expiry is known. *)
Lemma getPrimaryKeyWarnings_expiry (now : Time) (key : pgpkey.PgpKey) (e : Time) :
  getEarliestUidExpiry key = Ok (true, Some e) ->
  getPrimaryKeyWarnings now key
  = Ok (primaryRotationState e now
        ++ (if isExpiryTooLong e now
            then [mkKeyWarning PrimaryKeyLongExpiry 0 0 0] else [])).
Proof.
  intros H. unfold getPrimaryKeyWarnings. rewrite H. cbn [bind deref].
  unfold primaryRotationState, isExpired, isOverdueForRotation,
    isDueForRotation, calculateNextRotationTime.
  destruct (Before e now) eqn:Hexp.
  - rewrite getDaysSinceExpiry_eq.
    unfold Before in Hexp. apply Z.ltb_lt in Hexp.
    destruct (Z.leb_spec (unixNano now - unixNano e) (- nanosPerDay)) as [Hl|Hl];
      [rewrite nanosPerDay_eq in Hl; lia|].
    cbn [bind app]. destruct (isExpiryTooLong e now); reflexivity.
  - destruct (Before (Add (Add e (- thirtyDays)) tenDays) now) eqn:Hov.
    + rewrite getDaysUntilExpiry_eq.
      unfold Before in Hexp. apply Z.ltb_ge in Hexp.
      destruct (Z.leb_spec (unixNano e - unixNano now) (- nanosPerDay)) as [Hl|Hl];
        [rewrite nanosPerDay_eq in Hl; lia|].
      cbn [bind app]. destruct (isExpiryTooLong e now); reflexivity.
    + destruct (Before (Add e (- thirtyDays)) now);
        cbn [bind app]; destruct (isExpiryTooLong e now); reflexivity.
Qed.

Lemma getPrimaryKeyWarnings_no_expiry (now : Time) (key : pgpkey.PgpKey) :
  uidExpiries key = [] ->
  getPrimaryKeyWarnings now key = Ok [mkKeyWarning PrimaryKeyNoExpiry 0 0 0].
Proof.
  intros H. unfold getPrimaryKeyWarnings.
  now rewrite (getEarliestUidExpiry_none _ H).
Qed.

(** The primary-key evaluator never panics. *)
Lemma getPrimaryKeyWarnings_returns (now : Time) (key : pgpkey.PgpKey) :
  exists ws, getPrimaryKeyWarnings now key = Ok ws.
Proof.
  destruct (uidExpiries key) eqn:E.
  - eexists. exact (getPrimaryKeyWarnings_no_expiry now key E).
  - assert (Hne : uidExpiries key <> []) by congruence.
    destruct (getEarliestUidExpiry_some _ Hne) as (e & He & _).
    eexists. exact (getPrimaryKeyWarnings_expiry now key e He).
Qed.

(** *** Subkeys *)

Lemma encryptionSubkeys_loop (subkeys acc : list openpgp.Subkey) :
  fold_left
    (fun (subkeys : list openpgp.Subkey) (subkey : openpgp.Subkey) =>
       let hasEncryptionFlag :=
         packet.FlagEncryptCommunications (openpgp.Sig subkey)
         || packet.FlagEncryptStorage (openpgp.Sig subkey) in
       if packet.FlagsValid (openpgp.Sig subkey) && hasEncryptionFlag
       then subkeys ++ [subkey]
       else subkeys)
    subkeys acc
  = acc ++ filter eligible subkeys.
Proof.
  revert acc. induction subkeys as [|s subkeys IH]; intros acc.
  - simpl. now rewrite app_nil_r.
  - cbn [fold_left filter]. cbv zeta. rewrite IH. unfold eligible at 2.
    destruct (packet.FlagsValid (openpgp.Sig s)
              && (packet.FlagEncryptCommunications (openpgp.Sig s)
                  || packet.FlagEncryptStorage (openpgp.Sig s))).
    + now rewrite <- app_assoc.
    + reflexivity.
Qed.

Lemma encryptionSubkeys_eq (key : pgpkey.PgpKey) :
  encryptionSubkeys key = filter eligible (pgpkey.Subkeys key).
Proof. unfold encryptionSubkeys. now rewrite encryptionSubkeys_loop. Qed.

Lemma getMostRecentEncryptionSubkey_none (key : pgpkey.PgpKey) :
  filter eligible (pgpkey.Subkeys key) = [] ->
  getMostRecentEncryptionSubkey key = None.
Proof.
  intros H. unfold getMostRecentEncryptionSubkey.
  now rewrite encryptionSubkeys_eq, H.
Qed.

Lemma getMostRecentEncryptionSubkey_some (key : pgpkey.PgpKey) :
  filter eligible (pgpkey.Subkeys key) <> [] ->
  exists sk, getMostRecentEncryptionSubkey key = Some sk
             /\ List.In sk (pgpkey.Subkeys key)
             /\ eligible sk = true
             /\ forall s, List.In s (pgpkey.Subkeys key) -> eligible s = true ->
                          Before (created sk) (created s) = false.
Proof.
  intros H. unfold getMostRecentEncryptionSubkey.
  rewrite encryptionSubkeys_eq.
  destruct (sorted_head _ H) as (h & rest & Hs & Hin & Hmax).
  apply filter_In in Hin as [Hin Hel].
  exists h. cbv zeta. rewrite Hs.
  destruct (filter eligible (pgpkey.Subkeys key)) eqn:E; [congruence|].
  cbn [length Nat.eqb nth_error]. repeat split; auto.
  intros s1 Hs1 Hs2. apply Hmax. rewrite <- E. apply filter_In. auto.
Qed.

End eval_facts.

(** ** The model on concrete inputs *)

Module example_facts.
Import time status spec examples.

Example date_of_epoch : Time_Date (mkTime 0 UTC) = (1970, 1, 1).
Proof. reflexivity. Qed.

Example date_before_epoch : Time_Date (mkTime (-1) UTC) = (1969, 12, 31).
Proof. reflexivity. Qed.

Example date_of_noon : Time_Date noon = (2018, 9, 15).
Proof. reflexivity. Qed.

Example unix_of_noon : unixNano noon = 1537012800 * Second.
Proof. reflexivity. Qed.

Example date_leap_day :
  Time_Date (Date 2000 2 29 23 59 59 0 UTC) = (2000, 2, 29).
Proof. reflexivity. Qed.

Example date_in_zone :
  Time_Date (mkTime (unixNano (Date 2018 9 30 23 0 0 0 UTC)) (mkLocation 7200))
  = (2018, 10, 1).
Proof. reflexivity. Qed.

Example date_of_zero : Time_Date zero = (1, 1, 1).
Proof. reflexivity. Qed.

(** "If today is 15th September, nextExpiryTime would return 1st October +
    30 days". *)
Example nextExpiryTime_of_noon :
  nextExpiryTime noon = Add (Date 2018 10 1 0 0 0 0 UTC) thirtyDays.
Proof. reflexivity. Qed.

Example inDays_examples :
  inDays (days 40) = 40 /\ inDays (days 40 - 1) = 39
  /\ inDays (- Second) = 0 /\ inDays (- days 1) = -1
  /\ inDays (- days 2 + 1) = -1.
Proof. repeat split; reflexivity. Qed.

(** The sole identity expired exactly 40 days ago. *)
Example expired_forty_days_ago :
  getPrimaryKeyWarnings (Add noon (days 100)) keyWithSixtyDayIdentity
  = Ok [mkKeyWarning PrimaryKeyExpired 0 0 40].
Proof. reflexivity. Qed.

(** Identities expiring in 100 days and in 5 days: the rotation state is
    that of the expiry in 5 days. *)
Example two_identities :
  getPrimaryKeyWarnings noon keyWithTwoIdentities
  = Ok [mkKeyWarning PrimaryKeyOverdueForRotation 0 5 0]
  /\ getPrimaryKeyWarnings noon
       (withIdentities keyWithTwoIdentities [identity (Some (5 * 86400))])
     = Ok [mkKeyWarning PrimaryKeyOverdueForRotation 0 5 0]
  /\ getPrimaryKeyWarnings noon
       (withIdentities keyWithTwoIdentities [identity (Some (100 * 86400))])
     = Ok [mkKeyWarning PrimaryKeyLongExpiry 0 0 0].
Proof. repeat split; reflexivity. Qed.

(** The subkey evaluator on a 30-day subkey: nothing in the first days,
    due after the rotation time, a panic once overdue, no valid subkey
    once expired. *)
Example thirty_day_subkey_over_time :
  getEncryptionSubkeyWarnings noon keyWithThirtyDaySubkey = Ok []
  /\ getEncryptionSubkeyWarnings (Add noon (days 10)) keyWithThirtyDaySubkey
     = Ok [mkKeyWarning SubkeyDueForRotation 7 0 0]
  /\ getEncryptionSubkeyWarnings (Add noon (days 10 + 1)) keyWithThirtyDaySubkey
     = Panic "getDaysUntilExpiry: expiry has already passed"
  /\ getEncryptionSubkeyWarnings (Add noon (days 30)) keyWithThirtyDaySubkey
     = Panic "getDaysUntilExpiry: expiry has already passed"
  /\ getEncryptionSubkeyWarnings (Add noon (days 30 + 1)) keyWithThirtyDaySubkey
     = Ok [mkKeyWarning NoValidEncryptionSubkey 0 0 0].
Proof. repeat split; reflexivity. Qed.

Example three_subkeys :
  getMostRecentEncryptionSubkey keyWithThreeSubkeys = Some laterSubkey
  /\ getEncryptionSubkeyWarnings noon keyWithThreeSubkeys
     = Ok [mkKeyWarning SubkeyLongExpiry 8 0 0].
Proof. repeat split; reflexivity. Qed.

End example_facts.

(** ** The claims *)

Import time time_checks status spec examples.
Import time_facts status_facts sort_facts eval_facts.

(** C1. When the selected encryption subkey has not expired but its
    rotation is more than ten days overdue, [getEncryptionSubkeyWarnings]
    does not return a [SubkeyOverdueForRotation] warning: it asks for the
    days until the rotation time, which has passed by more than ten days,
    and [getDaysUntilExpiry] panics. *)
Theorem subkey_overdue_for_rotation_panics
  (now : Time) (key : pgpkey.PgpKey) (sk : openpgp.Subkey) (expiry : Time) :
  getMostRecentEncryptionSubkey key = Some sk ->
  getSubkeyExpiry sk = (true, Some expiry) ->
  Before expiry now = false ->
  Before (Add (Add expiry (- thirtyDays)) tenDays) now = true ->
  getEncryptionSubkeyWarnings now key
  = Panic "getDaysUntilExpiry: expiry has already passed".
Proof.
  intros Hsel Hexp Hne Hov.
  unfold getEncryptionSubkeyWarnings. rewrite Hsel, Hexp. cbn [deref bind].
  unfold isExpired, isOverdueForRotation, calculateNextRotationTime.
  rewrite Hne, Hov. rewrite getDaysUntilExpiry_eq.
  unfold Before in Hov. apply Z.ltb_lt in Hov. cbn [Add unixNano] in *.
  rewrite tenDays_eq in Hov. fold nanosPerDay in Hov.
  destruct (Z.leb_spec (unixNano expiry + - thirtyDays - unixNano now)
                       (- nanosPerDay)) as [Hle|Hgt]; [reflexivity|].
  rewrite nanosPerDay_eq in *. lia.
Qed.

Lemma subkey_overdue_for_rotation_panics_witness :
  getMostRecentEncryptionSubkey keyWithThirtyDaySubkey = Some thirtyDaySubkey
  /\ getSubkeyExpiry thirtyDaySubkey = (true, Some (Add noon (days 30)))
  /\ Before (Add noon (days 30)) (Add noon (days 25)) = false
  /\ Before (Add (Add (Add noon (days 30)) (- thirtyDays)) tenDays)
            (Add noon (days 25)) = true
  /\ getEncryptionSubkeyWarnings (Add noon (days 25)) keyWithThirtyDaySubkey
     = Panic "getDaysUntilExpiry: expiry has already passed".
Proof.
  do 4 (split; [reflexivity|]).
  apply (subkey_overdue_for_rotation_panics
           (Add noon (days 25)) keyWithThirtyDaySubkey thirtyDaySubkey
           (Add noon (days 30))); reflexivity.
Defined.



(** C3, as worded, fails: in mid-September the first month that starts 45
    days or more after the first of September is November (October starts
    only 30 days after it), so the worded ceiling is the first of November
    plus 30 days, whereas [nextExpiryTime] is the first of October plus 30
    days; an expiry in mid-November is flagged although it is before the
    worded ceiling. *)
Lemma ceiling_is_not_as_worded :
  nextExpiryTime noon <> ceilingAsWorded noon
  /\ nextExpiryTime noon = Date 2018 10 31 0 0 0 0 UTC
  /\ ceilingAsWorded noon = Date 2018 12 1 0 0 0 0 UTC
  /\ isExpiryTooLong mid_november noon = true
  /\ After mid_november (ceilingAsWorded noon) = false.
Proof.
  split.
  - intros H. apply (f_equal unixNano) in H. vm_compute in H. discriminate H.
  - repeat split; reflexivity.
Qed.

(** C3, amended.  For a clock whose zone is less than a day away from UTC,
    the ceiling is midnight UTC on the first day of the month after the
    current one, plus 30 days; an expiry is too long exactly when it is
    strictly after the ceiling, so the ceiling itself is not flagged and one
    second later is. *)
Theorem too_long_ceiling (now expiry : Time) (y m d : Z) :
  Time_Date now = (y, m, d) ->
  Z.abs (offset (loc now)) < secondsPerDay ->
  nextExpiryTime now
  = Add (monthStart (nextMonthYear y m) (nextMonth m)) thirtyDays
  /\ (isExpiryTooLong expiry now = true
      <-> unixNano (nextExpiryTime now) < unixNano expiry)
  /\ isExpiryTooLong (nextExpiryTime now) now = false
  /\ isExpiryTooLong (Add (nextExpiryTime now) Second) now = true.
Proof.
  intros E Hoff. split.
  - unfold nextExpiryTime. rewrite (firstOfNextMonth_next _ _ _ _ E Hoff).
    reflexivity.
  - unfold isExpiryTooLong, After. cbn [Add unixNano]. repeat split.
    + apply Z.ltb_lt.
    + apply Z.ltb_lt.
    + apply Z.ltb_irrefl.
    + apply Z.ltb_lt. rewrite Second_eq. lia.
Qed.

Lemma too_long_ceiling_witness :
  Time_Date noon = (2018, 9, 15)
  /\ Z.abs (offset (loc noon)) < secondsPerDay
  /\ nextExpiryTime noon = Add (monthStart 2018 10) thirtyDays
  /\ (isExpiryTooLong mid_november noon = true
      <-> unixNano (nextExpiryTime noon) < unixNano mid_november)
  /\ isExpiryTooLong (nextExpiryTime noon) noon = false
  /\ isExpiryTooLong (Add (nextExpiryTime noon) Second) noon = true.
Proof.
  split; [reflexivity|]. split; [reflexivity|].
  apply (too_long_ceiling noon mid_november 2018 9 15); reflexivity.
Defined.





(** C6. A key with no identity and no subkey evaluates to
    [PrimaryKeyNoExpiry] followed by [NoValidEncryptionSubkey]; for every
    key the primary-key evaluator returns, and [GetKeyWarnings] returns its
    warnings followed by those of the subkey evaluator. *)
Theorem GetKeyWarnings_order (nowPrimary nowSubkey : Time) :
  (forall primaryKey,
     GetKeyWarnings nowPrimary nowSubkey (pgpkey.mkPgpKey primaryKey [] [])
     = Ok [mkKeyWarning PrimaryKeyNoExpiry 0 0 0;
           mkKeyWarning NoValidEncryptionSubkey 0 0 0])
  /\ (forall key,
        exists primary,
          getPrimaryKeyWarnings nowPrimary key = Ok primary
          /\ GetKeyWarnings nowPrimary nowSubkey key
             = match getEncryptionSubkeyWarnings nowSubkey key with
               | Ok subkey => Ok (primary ++ subkey)
               | Panic msg => Panic msg
               end).
Proof.
  split.
  - intros primaryKey. reflexivity.
  - intros key.
    destruct (getPrimaryKeyWarnings_returns nowPrimary key) as (p & Hp).
    exists p. split; [assumption|].
    unfold GetKeyWarnings. rewrite Hp. cbn [bind app].
    destruct (getEncryptionSubkeyWarnings nowSubkey key); reflexivity.
Qed.

(** C7. When the selected encryption subkey has an expiry strictly before
    now, the subkey evaluator returns the single warning
    [NoValidEncryptionSubkey], the one it returns when no subkey is
    eligible: no [SubkeyOverdueForRotation] and no [SubkeyDueForRotation]. *)
Theorem expired_subkey_is_no_valid_subkey
  (now : Time) (key : pgpkey.PgpKey) (sk : openpgp.Subkey) (expiry : Time) :
  getMostRecentEncryptionSubkey key = Some sk ->
  getSubkeyExpiry sk = (true, Some expiry) ->
  Before expiry now = true ->
  getEncryptionSubkeyWarnings now key
  = Ok [mkKeyWarning NoValidEncryptionSubkey 0 0 0]
  /\ getEncryptionSubkeyWarnings now key
     = getEncryptionSubkeyWarnings now (withSubkeys key []).
Proof.
  intros Hsel Hexp Hb.
  assert (H : getEncryptionSubkeyWarnings now key
              = Ok [mkKeyWarning NoValidEncryptionSubkey 0 0 0]).
  { unfold getEncryptionSubkeyWarnings. rewrite Hsel, Hexp. cbn [deref bind].
    unfold isExpired. rewrite Hb, (expired_not_too_long expiry now Hb).
    reflexivity. }
  split; [exact H|]. rewrite H. reflexivity.
Qed.

Lemma expired_subkey_is_no_valid_subkey_witness :
  getMostRecentEncryptionSubkey keyWithThirtyDaySubkey = Some thirtyDaySubkey
  /\ getSubkeyExpiry thirtyDaySubkey = (true, Some (Add noon (days 30)))
  /\ Before (Add noon (days 30)) (Add noon (days 31)) = true
  /\ getEncryptionSubkeyWarnings (Add noon (days 31)) keyWithThirtyDaySubkey
     = Ok [mkKeyWarning NoValidEncryptionSubkey 0 0 0]
  /\ getEncryptionSubkeyWarnings (Add noon (days 31)) keyWithThirtyDaySubkey
     = getEncryptionSubkeyWarnings (Add noon (days 31))
         (withSubkeys keyWithThirtyDaySubkey []).
Proof.
  do 3 (split; [reflexivity|]).
  apply (expired_subkey_is_no_valid_subkey (Add noon (days 31))
           keyWithThirtyDaySubkey thirtyDaySubkey (Add noon (days 30)));
    reflexivity.
Defined.

(** C8. [calculateExpiry] returns no expiry for an absent and for a zero
    lifetime, and for a positive lifetime of [secs] seconds (a [uint32]) the
    creation time plus [secs] seconds, in UTC; it has no failing case. *)
Theorem calculateExpiry_spec (creationTime : Time) :
  calculateExpiry creationTime None = (false, None)
  /\ calculateExpiry creationTime (Some 0) = (false, None)
  /\ forall secs, 0 < secs < 2 ^ 32 ->
       calculateExpiry creationTime (Some secs)
       = (true, Some (mkTime (unixNano creationTime + secs * Second) UTC)).
Proof.
  split; [reflexivity|]. split; [reflexivity|].
  intros secs Hs. unfold calculateExpiry.
  destruct (Z.eqb_spec secs 0); [lia|].
  unfold In, Add, mul, wrap64. cbn [unixNano].
  rewrite Second_eq.
  replace ((secs * 1000000000 + 2 ^ 63) mod 2 ^ 64)
    with (secs * 1000000000 + 2 ^ 63)
    by (symmetry; apply Z.mod_small; lia).
  do 3 f_equal. lia.
Qed.

Lemma calculateExpiry_spec_witness :
  0 < 86400 < 2 ^ 32
  /\ calculateExpiry noon (Some 86400)
     = (true, Some (mkTime (unixNano noon + 86400 * Second) UTC)).
Proof.
  split; [lia|].
  apply (proj2 (proj2 (calculateExpiry_spec noon)) 86400). lia.
Defined.



(** C10. The ceiling of acceptable expiries is strictly after now, so in
    one evaluation [PrimaryKeyExpired] never comes with
    [PrimaryKeyLongExpiry], and [NoValidEncryptionSubkey] never comes with
    [SubkeyLongExpiry]. *)
Theorem expired_excludes_long_expiry (now : Time) (key : pgpkey.PgpKey) :
  unixNano now < unixNano (nextExpiryTime now)
  /\ hasType PrimaryKeyExpired (getPrimaryKeyWarnings now key)
     && hasType PrimaryKeyLongExpiry (getPrimaryKeyWarnings now key) = false
  /\ hasType NoValidEncryptionSubkey (getEncryptionSubkeyWarnings now key)
     && hasType SubkeyLongExpiry (getEncryptionSubkeyWarnings now key) = false.
Proof.
  split; [apply nextExpiryTime_after_now|]. split.
  - destruct (uidExpiries key) eqn:E.
    + rewrite (getPrimaryKeyWarnings_no_expiry now key E). reflexivity.
    + destruct (getEarliestUidExpiry_some key) as (e & He & _);
        [congruence|].
      rewrite (getPrimaryKeyWarnings_expiry now key e He).
      unfold primaryRotationState.
      destruct (Before e now) eqn:Hexp.
      * rewrite (expired_not_too_long e now Hexp). reflexivity.
      * destruct (Before (Add (Add e (- thirtyDays)) tenDays) now);
          [|destruct (Before (Add e (- thirtyDays)) now)];
          destruct (isExpiryTooLong e now); reflexivity.
  - unfold getEncryptionSubkeyWarnings.
    destruct (getMostRecentEncryptionSubkey key) as [sk|]; [|reflexivity].
    unfold getSubkeyExpiry.
    destruct (calculateExpiry_shape
                (packet.CreationTime (openpgp.PublicKey sk))
                (packet.KeyLifetimeSecs (openpgp.Sig sk)))
      as [E|(e & E & _)]; rewrite E; [reflexivity|].
    cbn [deref bind].
    unfold isExpired.
    destruct (Before e now) eqn:Hexp.
    + rewrite (expired_not_too_long e now Hexp). reflexivity.
    + destruct (isOverdueForRotation (calculateNextRotationTime e) now).
      * destruct (getDaysUntilExpiry (calculateNextRotationTime e) now);
          [|reflexivity].
        cbn [bind]. destruct (isExpiryTooLong e now); reflexivity.
      * destruct (isDueForRotation (calculateNextRotationTime e) now);
          cbn [bind]; destruct (isExpiryTooLong e now); reflexivity.
Qed.

(** ** Further facts about the helpers *)

Module extra_facts.
Import time time_checks status spec props.
Import time_facts status_facts sort_facts eval_facts.

Lemma Ok_inj {A : Type} (a b : A) : Ok a = Ok b -> a = b.
Proof. intros H. injection H as H. exact H. Qed.

Lemma Time_eq (t u : Time) :
  unixNano t = unixNano u -> loc t = loc u -> t = u.
Proof. destruct t, u. simpl. intros -> ->. reflexivity. Qed.

Lemma uidExpiry_shape (key : pgpkey.PgpKey) (id : openpgp.Identity) :
  uidExpiry key id = (false, None)
  \/ exists e, uidExpiry key id = (true, Some e) /\ loc e = UTC.
Proof. apply calculateExpiry_shape. Qed.

Lemma uidExpiries_UTC (key : pgpkey.PgpKey) (e : Time) :
  List.In e (uidExpiries key) -> loc e = UTC.
Proof.
  unfold uidExpiries. rewrite in_flat_map. intros (id & _ & H).
  destruct (uidExpiry_shape key id) as [E|(e' & E & Hl)];
    rewrite E in H; simpl in H.
  - contradiction.
  - destruct H as [<-|[]]. exact Hl.
Qed.

(** The evaluator reads the identities through the expiries they resolve
    to, in the order of the loop. *)
Lemma getEarliestUidExpiry_by_expiries (key key' : pgpkey.PgpKey) :
  uidExpiries key = uidExpiries key' ->
  getEarliestUidExpiry key = getEarliestUidExpiry key'.
Proof.
  intros H. unfold getEarliestUidExpiry.
  now rewrite !uidExpiryTimes_eq, H.
Qed.

Lemma getPrimaryKeyWarnings_by_earliest (now : Time) (key key' : pgpkey.PgpKey) :
  getEarliestUidExpiry key = getEarliestUidExpiry key' ->
  getPrimaryKeyWarnings now key = getPrimaryKeyWarnings now key'.
Proof. intros H. unfold getPrimaryKeyWarnings. now rewrite H. Qed.

(** *** The loop of [earliest] *)

Lemma earliest_unfold (times : list Time) :
  earliest times
  = if (length times =? 0)%nat
    then Panic "earliest called with empty slice"
    else Ok (snd (earliestLoop times (false, zero))).
Proof.
  unfold earliest, earliestLoop.
  destruct (length times =? 0)%nat; [reflexivity|].
  destruct (fold_left _ times (false, zero)). reflexivity.
Qed.

Lemma earliestLoop_app (l1 l2 : list Time) (st : bool * Time) :
  earliestLoop (l1 ++ l2) st = earliestLoop l2 (earliestLoop l1 st).
Proof. unfold earliestLoop. apply fold_left_app. Qed.

Lemma earliestLoop_keeps (times : list Time) (t : Time) :
  (forall x, List.In x times -> Before x t = false) ->
  earliestLoop times (true, t) = (true, t).
Proof.
  induction times as [|x times IH]; intros H; [reflexivity|].
  unfold earliestLoop in *. cbn [fold_left negb orb].
  rewrite (H x (or_introl eq_refl)).
  apply IH. intros y Hy. apply H. now right.
Qed.

Lemma earliestLoop_later (times : list Time) (t : Time) :
  (forall x, List.In x times -> Before t x = true) ->
  forall st, st = (false, zero) ->
  let '(set, e) := earliestLoop times st in
  negb set || Before t e = true.
Proof.
  intros H st ->.
  pose proof (earliest_loop times false zero) as Hl.
  fold (earliestLoop times (false, zero)) in Hl.
  destruct (earliestLoop times (false, zero)) as [set e].
  destruct set; [|reflexivity].
  destruct Hl as [_ Hl]. destruct (Hl eq_refl) as ([Hin|[Hf _]] & _).
  - cbn [negb orb]. now apply H.
  - discriminate.
Qed.

(** *** Months are not interleaved *)

(** No month begins strictly inside another month. *)
Lemma month_starts_apart (y m y' m' : Z) :
  1 <= m <= 12 -> 1 <= m' <= 12 ->
  dateToDays y m 1 < dateToDays y' m' 1 ->
  dateToDays y m 1 + daysIn m y <= dateToDays y' m' 1.
Proof.
  intros Hm Hm' Hlt.
  destruct (Z.lt_ge_cases (dateToDays y' m' 1) (dateToDays y m 1 + daysIn m y))
    as [Hin|Hge]; [exfalso|assumption].
  pose proof (absDate_in_month y m (dateToDays y' m' 1 - dateToDays y m 1) Hm
                ltac:(lia)) as H1.
  pose proof (daysIn_bounds m' y' Hm') as Hdi'.
  pose proof (absDate_in_month y' m' 0 Hm' ltac:(lia)) as H2.
  replace (dateToDays y m 1 + (dateToDays y' m' 1 - dateToDays y m 1))
    with (dateToDays y' m' 1 + 0) in H1 by lia.
  rewrite H2 in H1. injection H1 as _ _ H1. lia.
Qed.

(** [beginningOfMonth] does not go back when the clock goes forward. *)
Lemma beginningOfMonth_monotone (t u : Time) :
  loc t = loc u ->
  unixNano t <= unixNano u ->
  unixNano (beginningOfMonth t) <= unixNano (beginningOfMonth u).
Proof.
  intros Hloc Hle.
  destruct (Time_Date t) as [[y m] d] eqn:Et.
  destruct (Time_Date u) as [[y' m'] d'] eqn:Eu.
  rewrite (beginningOfMonth_eq _ _ _ _ Et), (beginningOfMonth_eq _ _ _ _ Eu).
  rewrite !unixNano_In, !unixNano_Date_first.
  destruct (month_of_instant _ _ _ _ Et) as (Hm & Ht).
  destruct (month_of_instant _ _ _ _ Eu) as (Hm' & Hu).
  rewrite <- Hloc in *.
  set (o := offset (loc t) * Second) in *. clearbody o.
  destruct (Z.le_gt_cases (dateToDays y m 1) (dateToDays y' m' 1)) as [H|H].
  - rewrite nanosPerDay_eq. lia.
  - pose proof (month_starts_apart y' m' y m Hm' Hm H) as Hap.
    rewrite nanosPerDay_eq in *. lia.
Qed.

Lemma loc_beginningOfMonth (now : Time) : loc (beginningOfMonth now) = UTC.
Proof.
  unfold beginningOfMonth. destruct (Time_Date now) as [[y m] d]. reflexivity.
Qed.

Lemma loc_Add (t : Time) (d : Duration) : loc (Add t d) = loc t.
Proof. reflexivity. Qed.

Lemma nextExpiryTime_monotone (t u : Time) :
  loc t = loc u ->
  unixNano t <= unixNano u ->
  unixNano (nextExpiryTime t) <= unixNano (nextExpiryTime u).
Proof.
  intros Hloc Hle.
  rewrite !nextExpiryTime_unfold, !unixNano_In, !unixNano_Add.
  pose proof (beginningOfMonth_monotone t u Hloc Hle) as H1.
  pose proof (beginningOfMonth_monotone
                (Add (beginningOfMonth t) fortyFiveDays)
                (Add (beginningOfMonth u) fortyFiveDays)) as H2.
  rewrite !unixNano_Add, !loc_Add, !loc_beginningOfMonth in H2.
  specialize (H2 eq_refl ltac:(lia)). lia.
Qed.

(** *** Sorted slices *)

Lemma StronglySorted_snoc (l : list openpgp.Subkey) (x : openpgp.Subkey) :
  StronglySorted notBefore l ->
  Forall (fun y => notBefore y x) l ->
  StronglySorted notBefore (l ++ [x]).
Proof.
  induction 1 as [|a l Hs IH Hall]; intros Hx; simpl.
  - constructor; constructor.
  - inversion Hx as [|? ? Hax Hlx]; subst.
    constructor; [now apply IH|].
    apply Forall_app. split; [assumption|]. constructor; [assumption|constructor].
Qed.

Lemma StronglySorted_rev (l : list openpgp.Subkey) :
  StronglySorted notAfter l -> StronglySorted notBefore (rev l).
Proof.
  induction 1 as [|a l Hs IH Hall]; simpl; [constructor|].
  apply StronglySorted_snoc; [assumption|].
  apply Forall_rev. eapply Forall_impl; [|exact Hall].
  intros y Hy. exact Hy.
Qed.

(** *** The loops of [getEarliestExpiryTime] *)

Lemma getSubkeyExpiry_shape (subkey : openpgp.Subkey) :
  getSubkeyExpiry subkey = (false, None)
  \/ exists e, getSubkeyExpiry subkey = (true, Some e) /\ loc e = UTC.
Proof. apply calculateExpiry_shape. Qed.

Lemma allExpiryTimes_loop (subkeys : list openpgp.Subkey) (acc : list Time) :
  fold_left
    (fun (acc : result (list Time)) (subkey : openpgp.Subkey) =>
       allExpiryTimes <- acc ;;
       let '(hasExpiry, expiryTime) := getSubkeyExpiry subkey in
       if hasExpiry
       then t <- deref expiryTime ;; Ok (allExpiryTimes ++ [t])
       else Ok allExpiryTimes)
    subkeys (Ok acc)
  = Ok (acc ++ flat_map (fun subkey => match getSubkeyExpiry subkey with
                                       | (true, Some e) => [e]
                                       | _ => []
                                       end) subkeys).
Proof.
  revert acc. induction subkeys as [|sk subkeys IH]; intros acc.
  - simpl. now rewrite app_nil_r.
  - cbn [fold_left flat_map bind].
    destruct (getSubkeyExpiry_shape sk) as [E|(e & E & _)];
      rewrite E; cbn [deref bind].
    + rewrite IH. reflexivity.
    + rewrite IH, <- app_assoc. reflexivity.
Qed.

Lemma allExpiryTimes_eq (key : pgpkey.PgpKey) :
  allExpiryTimes key = Ok (uidExpiries key ++ subkeyExpiries key).
Proof.
  unfold allExpiryTimes. rewrite uidExpiryTimes_eq.
  apply allExpiryTimes_loop.
Qed.

(** *** The subkey evaluator, once the subkey is selected *)

Lemma getEncryptionSubkeyWarnings_no_expiry
      (now : Time) (key : pgpkey.PgpKey) (sk : openpgp.Subkey) :
  getMostRecentEncryptionSubkey key = Some sk ->
  getSubkeyExpiry sk = (false, None) ->
  getEncryptionSubkeyWarnings now key
  = Ok [mkKeyWarning SubkeyNoExpiry
                     (packet.KeyId (openpgp.PublicKey sk)) 0 0].
Proof.
  intros Hsel Hexp. unfold getEncryptionSubkeyWarnings.
  rewrite Hsel, Hexp. reflexivity.
Qed.

Lemma getEncryptionSubkeyWarnings_expiry
      (now : Time) (key : pgpkey.PgpKey) (sk : openpgp.Subkey) (e : Time) :
  getMostRecentEncryptionSubkey key = Some sk ->
  getSubkeyExpiry sk = (true, Some e) ->
  getEncryptionSubkeyWarnings now key
  = if Before e now then Ok [mkKeyWarning NoValidEncryptionSubkey 0 0 0]
    else if Before (Add (Add e (- thirtyDays)) tenDays) now
    then Panic "getDaysUntilExpiry: expiry has already passed"
    else Ok ((if Before (Add e (- thirtyDays)) now
              then [mkKeyWarning SubkeyDueForRotation
                                 (packet.KeyId (openpgp.PublicKey sk)) 0 0]
              else [])
             ++ (if isExpiryTooLong e now
                 then [mkKeyWarning SubkeyLongExpiry
                                    (packet.KeyId (openpgp.PublicKey sk)) 0 0]
                 else [])).
Proof.
  intros Hsel Hexp. unfold getEncryptionSubkeyWarnings.
  rewrite Hsel, Hexp. cbn [deref bind].
  unfold isExpired, isOverdueForRotation, isDueForRotation,
    calculateNextRotationTime.
  destruct (Before e now) eqn:Hb.
  - rewrite (expired_not_too_long e now Hb). reflexivity.
  - destruct (Before (Add (Add e (- thirtyDays)) tenDays) now) eqn:Hov.
    + rewrite getDaysUntilExpiry_eq.
      unfold Before in Hov. apply Z.ltb_lt in Hov.
      rewrite !unixNano_Add in *.
      rewrite tenDays_eq in Hov. fold nanosPerDay in Hov.
      destruct (Z.leb_spec (unixNano e + - thirtyDays - unixNano now)
                           (- nanosPerDay)) as [Hle|Hgt]; [reflexivity|].
      rewrite nanosPerDay_eq in *. lia.
    + destruct (Before (Add e (- thirtyDays)) now);
        cbn [bind app]; destruct (isExpiryTooLong e now); reflexivity.
Qed.

(** *** Identities that never expire *)

Lemma uidExpiry_withIdentities (key : pgpkey.PgpKey)
      (ids : list openpgp.Identity) (id : openpgp.Identity) :
  uidExpiry (withIdentities key ids) id = uidExpiry key id.
Proof. reflexivity. Qed.

Lemma uidExpiries_withIdentities (key : pgpkey.PgpKey)
      (ids : list openpgp.Identity) :
  uidExpiries (withIdentities key ids)
  = flat_map (fun id => match uidExpiry key id with
                        | (true, Some e) => [e]
                        | _ => []
                        end) ids.
Proof. reflexivity. Qed.

Lemma uidExpiry_neverExpires (key : pgpkey.PgpKey) (id : openpgp.Identity) :
  neverExpires (openpgp.SelfSignature id) = true ->
  uidExpiry key id = (false, None).
Proof.
  unfold neverExpires, uidExpiry, calculateExpiry.
  destruct (packet.KeyLifetimeSecs (openpgp.SelfSignature id)) as [secs|];
    [|reflexivity].
  intros ->. reflexivity.
Qed.

Lemma uidExpiry_expires (key : pgpkey.PgpKey) (id : openpgp.Identity) :
  neverExpires (openpgp.SelfSignature id) = false ->
  exists e, uidExpiry key id = (true, Some e).
Proof.
  unfold neverExpires, uidExpiry, calculateExpiry.
  destruct (packet.KeyLifetimeSecs (openpgp.SelfSignature id)) as [secs|];
    [|discriminate].
  intros ->. eexists. reflexivity.
Qed.

Lemma uidExpiries_nil_iff (key : pgpkey.PgpKey) :
  uidExpiries key = []
  <-> forallb (fun id => neverExpires (openpgp.SelfSignature id))
              (pgpkey.Identities key) = true.
Proof.
  unfold uidExpiries.
  induction (pgpkey.Identities key) as [|id ids IH]; [simpl; tauto|].
  cbn [flat_map forallb].
  destruct (neverExpires (openpgp.SelfSignature id)) eqn:E.
  - rewrite (uidExpiry_neverExpires key id E). cbn [app andb]. exact IH.
  - destruct (uidExpiry_expires key id E) as (e & ->). cbn [app andb].
    split; discriminate.
Qed.

(** *** The tests of the rotation states *)

Lemma rotation_nesting_helper (expiry now : Time) :
  (Before expiry now = true ->
   Before (Add (Add expiry (- thirtyDays)) tenDays) now = true)
  /\ (Before (Add (Add expiry (- thirtyDays)) tenDays) now = true ->
      Before (Add expiry (- thirtyDays)) now = true).
Proof.
  unfold Before.
  rewrite !unixNano_Add, thirtyDays_eq, tenDays_eq.
  fold nanosPerDay. rewrite nanosPerDay_eq.
  set (e := unixNano expiry). set (n := unixNano now). clearbody e n.
  split; intros H; apply Z.ltb_lt in H; apply Z.ltb_lt; lia.
Qed.

(** *** Differences of instants *)




(** *** The first instant of a month *)



(** *** Keys without warnings *)

Lemma healthy_tests (e now : Time) :
  (Before e now = false
   /\ Before (Add (Add e (- thirtyDays)) tenDays) now = false
   /\ Before (Add e (- thirtyDays)) now = false
   /\ isExpiryTooLong e now = false)
  <-> unixNano now + thirtyDays <= unixNano e <= unixNano (nextExpiryTime now).
Proof.
  unfold isExpiryTooLong, After, Before.
  rewrite !unixNano_Add, thirtyDays_eq, tenDays_eq.
  fold nanosPerDay. rewrite nanosPerDay_eq.
  set (c := unixNano (nextExpiryTime now)). clearbody c.
  set (x := unixNano e). set (n := unixNano now). clearbody x n.
  rewrite !Z.ltb_ge. lia.
Qed.

Lemma primary_healthy_iff (now : Time) (key : pgpkey.PgpKey) :
  getPrimaryKeyWarnings now key = Ok []
  <-> exists e,
        getEarliestUidExpiry key = Ok (true, Some e)
        /\ unixNano now + thirtyDays <= unixNano e
           <= unixNano (nextExpiryTime now).
Proof.
  assert (Hcase : uidExpiries key = [] \/ uidExpiries key <> [])
    by (destruct (uidExpiries key); [now left | right; discriminate]).
  destruct Hcase as [E|E].
  { rewrite (getPrimaryKeyWarnings_no_expiry now key E).
    rewrite (getEarliestUidExpiry_none key E).
    split; [discriminate | intros (e & H & _); discriminate]. }
  destruct (getEarliestUidExpiry_some key E) as (e & He & _).
  rewrite (getPrimaryKeyWarnings_expiry now key e He), He.
  pose proof (healthy_tests e now) as Ht.
  unfold primaryRotationState.
  destruct (Before e now);
    destruct (Before (Add (Add e (- thirtyDays)) tenDays) now);
    destruct (Before (Add e (- thirtyDays)) now);
    destruct (isExpiryTooLong e now); cbn [app];
    (split;
     [ intros H;
       first [ discriminate H
             | exists e; split; [reflexivity|]; apply Ht; auto ]
     | intros (e' & He' & Hr); apply Ok_inj in He';
       assert (e' = e) by congruence; subst e';
       apply Ht in Hr; destruct Hr as (H1 & H2 & H3 & H4);
       congruence ]).
Qed.

Lemma subkey_healthy_iff (now : Time) (key : pgpkey.PgpKey) :
  getEncryptionSubkeyWarnings now key = Ok []
  <-> exists sk e,
        getMostRecentEncryptionSubkey key = Some sk
        /\ getSubkeyExpiry sk = (true, Some e)
        /\ unixNano now + thirtyDays <= unixNano e
           <= unixNano (nextExpiryTime now).
Proof.
  destruct (getMostRecentEncryptionSubkey key) as [sk|] eqn:Hsel.
  2:{ unfold getEncryptionSubkeyWarnings. rewrite Hsel.
      split; [discriminate | intros (sk & e & H & _); discriminate]. }
  destruct (getSubkeyExpiry_shape sk) as [E|(e & E & _)].
  { rewrite (getEncryptionSubkeyWarnings_no_expiry now key sk Hsel E).
    split; [discriminate|].
    intros (sk' & e & H & H' & _). congruence. }
  rewrite (getEncryptionSubkeyWarnings_expiry now key sk e Hsel E).
  pose proof (healthy_tests e now) as Ht.
  destruct (Before e now);
    destruct (Before (Add (Add e (- thirtyDays)) tenDays) now);
    destruct (Before (Add e (- thirtyDays)) now);
    destruct (isExpiryTooLong e now); cbn [app];
    (split;
     [ intros H;
       first [ discriminate H
             | exists sk, e; split; [reflexivity|]; split; [exact E|];
               apply Ht; auto ]
     | intros (sk' & e' & Hs & He' & Hr);
       assert (e' = e) by congruence; subst e';
       apply Ht in Hr; destruct Hr as (H1 & H2 & H3 & H4);
       congruence ]).
Qed.

End extra_facts.

(** ** Further properties of [status.go] *)

Import props extra_facts.

(** X1. The three states that the evaluators test in turn are nested: an
    expired key is overdue for rotation, and a key overdue for rotation is
    due for rotation. *)
Theorem rotation_states_are_nested (expiry now : Time) :
  (isExpired expiry now = true ->
   isOverdueForRotation (calculateNextRotationTime expiry) now = true)
  /\ (isOverdueForRotation (calculateNextRotationTime expiry) now = true ->
      isDueForRotation (calculateNextRotationTime expiry) now = true).
Proof.
  unfold isExpired, isOverdueForRotation, isDueForRotation,
    calculateNextRotationTime, Before.
  rewrite !unixNano_Add, thirtyDays_eq, tenDays_eq.
  fold nanosPerDay. rewrite nanosPerDay_eq.
  set (e := unixNano expiry). set (n := unixNano now). clearbody e n.
  split; intros H; apply Z.ltb_lt in H; apply Z.ltb_lt; lia.
Qed.

Lemma rotation_states_are_nested_witness :
  isExpired noon (Add noon (days 1)) = true
  /\ isOverdueForRotation (calculateNextRotationTime noon) (Add noon (days 1))
     = true
  /\ isDueForRotation (calculateNextRotationTime noon) (Add noon (days 1))
     = true.
Proof.
  split; [reflexivity|].
  destruct (rotation_states_are_nested noon (Add noon (days 1))) as [H1 H2].
  split; [apply H1; reflexivity | apply H2, H1; reflexivity].
Defined.

(** X2. [earliest] panics on an empty slice; otherwise it returns the first
    of the times that no other time is before: a time that is before all
    the times in front of it and that none of the times behind it is
    before. *)
Theorem earliest_returns_first_minimum :
  earliest [] = Panic "earliest called with empty slice"
  /\ forall (front back : list Time) (t : Time),
       (forall x, List.In x front -> Before t x = true) ->
       (forall x, List.In x back -> Before x t = false) ->
       earliest (front ++ t :: back) = Ok t.
Proof.
  split; [reflexivity|].
  intros front back t Hfront Hback.
  rewrite earliest_unfold.
  replace (length (front ++ t :: back) =? 0)%nat with false
    by (rewrite length_app; simpl; symmetry; apply Nat.eqb_neq; lia).
  rewrite earliestLoop_app.
  pose proof (earliestLoop_later front t Hfront (false, zero) eq_refl) as H.
  destruct (earliestLoop front (false, zero)) as [set e].
  change (earliestLoop (t :: back) (set, e))
    with (earliestLoop back
            (if negb set || Before t e then (true, t) else (set, e))).
  rewrite H. now rewrite (earliestLoop_keeps back t Hback).
Qed.

Lemma earliest_returns_first_minimum_witness :
  (forall x, List.In x [Add noon (days 2)] -> Before noon x = true)
  /\ (forall x, List.In x [Add noon (days 1); noon] -> Before x noon = false)
  /\ earliest ([Add noon (days 2)] ++ noon :: [Add noon (days 1); noon])
     = Ok noon.
Proof.
  assert (H1 : forall x, List.In x [Add noon (days 2)] -> Before noon x = true)
    by (intros x [<-|[]]; reflexivity).
  assert (H2 : forall x, List.In x [Add noon (days 1); noon] ->
                         Before x noon = false)
    by (intros x [<-|[<-|[]]]; reflexivity).
  split; [exact H1|]. split; [exact H2|].
  exact (proj2 earliest_returns_first_minimum _ _ _ H1 H2).
Defined.

(** X3. [getEarliestExpiryTime] never panics.  It reports no expiry exactly
    when neither an identity nor a subkey resolves to one; otherwise it
    returns one of the resolved expiries, of the identities and of all the
    subkeys (eligible for encryption or not), that none of them is
    before. *)
Theorem getEarliestExpiryTime_spec (key : pgpkey.PgpKey) :
  (uidExpiries key ++ subkeyExpiries key = []
   /\ getEarliestExpiryTime key = Ok (false, None))
  \/ (exists e,
        getEarliestExpiryTime key = Ok (true, Some e)
        /\ List.In e (uidExpiries key ++ subkeyExpiries key)
        /\ forall t, List.In t (uidExpiries key ++ subkeyExpiries key) ->
                     Before t e = false).
Proof.
  unfold getEarliestExpiryTime. rewrite allExpiryTimes_eq. cbn [bind].
  destruct (uidExpiries key ++ subkeyExpiries key) as [|t0 l] eqn:E.
  - left. split; reflexivity.
  - right.
    destruct (earliest_spec (t0 :: l)) as (e & He & Hin & Hmin);
      [discriminate|].
    exists e. rewrite He. cbn [length Nat.ltb Nat.leb bind].
    repeat split; assumption.
Qed.

Lemma getEarliestExpiryTime_spec_witness :
  getEarliestExpiryTime keyWithShortSigningSubkey
  = Ok (true, Some (Add noon (days 10)))
  /\ getEarliestUidExpiry keyWithShortSigningSubkey
     = Ok (true, Some (Add noon (days 60)))
  /\ ((uidExpiries keyWithShortSigningSubkey
       ++ subkeyExpiries keyWithShortSigningSubkey = []
       /\ getEarliestExpiryTime keyWithShortSigningSubkey = Ok (false, None))
      \/ (exists e,
            getEarliestExpiryTime keyWithShortSigningSubkey = Ok (true, Some e)
            /\ List.In e (uidExpiries keyWithShortSigningSubkey
                          ++ subkeyExpiries keyWithShortSigningSubkey)
            /\ forall t,
                 List.In t (uidExpiries keyWithShortSigningSubkey
                            ++ subkeyExpiries keyWithShortSigningSubkey) ->
                 Before t e = false)).
Proof.
  split; [reflexivity|]. split; [reflexivity|].
  exact (getEarliestExpiryTime_spec keyWithShortSigningSubkey).
Defined.

(** X4. [getMostRecentEncryptionSubkey] returns [nil] exactly when no subkey
    has valid flags and an encryption capability; otherwise it returns one
    of the key's eligible subkeys, and no eligible subkey was created after
    it. *)
Theorem getMostRecentEncryptionSubkey_spec (key : pgpkey.PgpKey) :
  (getMostRecentEncryptionSubkey key = None
   <-> forall s, List.In s (pgpkey.Subkeys key) -> eligible s = false)
  /\ forall sk,
       getMostRecentEncryptionSubkey key = Some sk ->
       List.In sk (pgpkey.Subkeys key)
       /\ eligible sk = true
       /\ forall s, List.In s (pgpkey.Subkeys key) -> eligible s = true ->
                    Before (created sk) (created s) = false.
Proof.
  destruct (filter eligible (pgpkey.Subkeys key)) as [|s0 l] eqn:E.
  - pose proof (getMostRecentEncryptionSubkey_none key E) as Hn.
    assert (Hall : forall s, List.In s (pgpkey.Subkeys key) ->
                             eligible s = false).
    { intros s Hs. destruct (eligible s) eqn:Hel; [|reflexivity].
      assert (Hin : List.In s (filter eligible (pgpkey.Subkeys key)))
        by (apply filter_In; auto).
      rewrite E in Hin. destruct Hin. }
    split; [split; auto|].
    intros sk Hsk. congruence.
  - destruct (getMostRecentEncryptionSubkey_some key)
      as (h & Hh & Hin & Hel & Hmax); [congruence|].
    split.
    + split; [congruence|].
      intros Hall. specialize (Hall h Hin). congruence.
    + intros sk Hsk. assert (sk = h) by congruence. subst sk. auto.
Qed.

Lemma getMostRecentEncryptionSubkey_spec_witness :
  getMostRecentEncryptionSubkey keyWithThreeSubkeys = Some laterSubkey
  /\ List.In laterSubkey (pgpkey.Subkeys keyWithThreeSubkeys)
  /\ eligible laterSubkey = true
  /\ forall s, List.In s (pgpkey.Subkeys keyWithThreeSubkeys) ->
               eligible s = true ->
               Before (created laterSubkey) (created s) = false.
Proof.
  split; [reflexivity|].
  apply (proj2 (getMostRecentEncryptionSubkey_spec keyWithThreeSubkeys)).
  reflexivity.
Defined.

(** X5. The identities of a key are a Go map, visited in no fixed order:
    the warnings of the primary-key evaluator do not depend on the order in
    which the identities are visited. *)
Theorem primary_warnings_ignore_identity_order
  (now : Time) (key : pgpkey.PgpKey) (ids : list openpgp.Identity) :
  Permutation (pgpkey.Identities key) ids ->
  getPrimaryKeyWarnings now key
  = getPrimaryKeyWarnings now (withIdentities key ids).
Proof.
  intros Hp.
  assert (Hpe : Permutation (uidExpiries key)
                            (uidExpiries (withIdentities key ids))).
  { rewrite uidExpiries_withIdentities. unfold uidExpiries.
    apply Permutation_flat_map, Hp. }
  apply getPrimaryKeyWarnings_by_earliest.
  assert (Hcase : uidExpiries key = [] \/ uidExpiries key <> [])
    by (destruct (uidExpiries key); [now left | right; discriminate]).
  destruct Hcase as [E|E].
  - assert (E' : uidExpiries (withIdentities key ids) = [])
      by (apply Permutation_nil; rewrite <- E; exact Hpe).
    rewrite (getEarliestUidExpiry_none key E).
    now rewrite (getEarliestUidExpiry_none _ E').
  - destruct (getEarliestUidExpiry_some key E) as (e & He & Hin & Hmin).
    destruct (getEarliestUidExpiry_some (withIdentities key ids))
      as (e' & He' & Hin' & Hmin').
    { intros Hnil. rewrite Hnil in Hpe. apply E.
      apply Permutation_nil, Permutation_sym, Hpe. }
    rewrite He, He'. do 3 f_equal.
    apply Time_eq.
    + pose proof (Hmin e' (Permutation_in _ (Permutation_sym Hpe) Hin')) as H1.
      pose proof (Hmin' e (Permutation_in _ Hpe Hin)) as H2.
      unfold Before in H1, H2. apply Z.ltb_ge in H1. apply Z.ltb_ge in H2. lia.
    + rewrite (uidExpiries_UTC key e Hin).
      symmetry. apply (uidExpiries_UTC (withIdentities key ids) e' Hin').
Qed.

Lemma primary_warnings_ignore_identity_order_witness :
  Permutation (pgpkey.Identities keyWithTwoIdentities)
              [identity (Some (5 * 86400)); identity (Some (100 * 86400))]
  /\ getPrimaryKeyWarnings noon keyWithTwoIdentities
     = getPrimaryKeyWarnings noon
         (withIdentities keyWithTwoIdentities
            [identity (Some (5 * 86400)); identity (Some (100 * 86400))]).
Proof.
  assert (H : Permutation (pgpkey.Identities keyWithTwoIdentities)
                [identity (Some (5 * 86400)); identity (Some (100 * 86400))])
    by apply perm_swap.
  split; [exact H|].
  exact (primary_warnings_ignore_identity_order noon keyWithTwoIdentities _ H).
Defined.

(** X6. An identity whose self-signature carries no lifetime, or a lifetime
    of zero, does not count: the primary-key evaluator returns what it
    returns for the key without that identity.  In particular a key with a
    never-expiring identity and an expiring one is evaluated as expiring. *)
Theorem identities_without_expiry_are_ignored
  (now : Time) (key : pgpkey.PgpKey)
  (front back : list openpgp.Identity) (id : openpgp.Identity) :
  pgpkey.Identities key = front ++ id :: back ->
  neverExpires (openpgp.SelfSignature id) = true ->
  getPrimaryKeyWarnings now key
  = getPrimaryKeyWarnings now (withIdentities key (front ++ back)).
Proof.
  intros Hids Hnever.
  apply getPrimaryKeyWarnings_by_earliest, getEarliestUidExpiry_by_expiries.
  rewrite uidExpiries_withIdentities. unfold uidExpiries. rewrite Hids.
  rewrite !flat_map_app. cbn [flat_map].
  now rewrite (uidExpiry_neverExpires key id Hnever).
Qed.

Lemma identities_without_expiry_are_ignored_witness :
  pgpkey.Identities keyWithThreeIdentities
  = [identity (Some (100 * 86400))] ++ identity None
    :: [identity (Some (5 * 86400))]
  /\ neverExpires (openpgp.SelfSignature (identity None)) = true
  /\ getPrimaryKeyWarnings noon keyWithThreeIdentities
     = getPrimaryKeyWarnings noon
         (withIdentities keyWithThreeIdentities
            ([identity (Some (100 * 86400))] ++ [identity (Some (5 * 86400))])).
Proof.
  do 2 (split; [reflexivity|]).
  apply (identities_without_expiry_are_ignored noon keyWithThreeIdentities
           [identity (Some (100 * 86400))] [identity (Some (5 * 86400))]
           (identity None)); reflexivity.
Defined.

(** X7. [PrimaryKeyNoExpiry] is returned exactly when no identity carries a
    positive lifetime (also when the key has no identity at all), and it is
    then the only primary-key warning. *)
Theorem primary_key_no_expiry_iff (now : Time) (key : pgpkey.PgpKey) :
  (forallb (fun id => neverExpires (openpgp.SelfSignature id))
           (pgpkey.Identities key) = true ->
   getPrimaryKeyWarnings now key = Ok [mkKeyWarning PrimaryKeyNoExpiry 0 0 0])
  /\ (forallb (fun id => neverExpires (openpgp.SelfSignature id))
              (pgpkey.Identities key) = false ->
      hasType PrimaryKeyNoExpiry (getPrimaryKeyWarnings now key) = false).
Proof.
  split; intros H.
  - apply getPrimaryKeyWarnings_no_expiry, uidExpiries_nil_iff, H.
  - destruct (getEarliestUidExpiry_some key) as (e & He & _).
    { intros Hnil. apply uidExpiries_nil_iff in Hnil. congruence. }
    rewrite (getPrimaryKeyWarnings_expiry now key e He).
    unfold primaryRotationState.
    destruct (Before e now);
      [|destruct (Before (Add (Add e (- thirtyDays)) tenDays) now);
        [|destruct (Before (Add e (- thirtyDays)) now)]];
      destruct (isExpiryTooLong e now); reflexivity.
Qed.

Lemma primary_key_no_expiry_iff_witness :
  forallb (fun id => neverExpires (openpgp.SelfSignature id))
          (pgpkey.Identities keyWithThirtyDaySubkey) = true
  /\ getPrimaryKeyWarnings noon keyWithThirtyDaySubkey
     = Ok [mkKeyWarning PrimaryKeyNoExpiry 0 0 0]
  /\ forallb (fun id => neverExpires (openpgp.SelfSignature id))
             (pgpkey.Identities keyWithThreeIdentities) = false
  /\ hasType PrimaryKeyNoExpiry
             (getPrimaryKeyWarnings noon keyWithThreeIdentities) = false.
Proof.
  split; [reflexivity|].
  split; [apply (proj1 (primary_key_no_expiry_iff noon keyWithThirtyDaySubkey));
          reflexivity|].
  split; [reflexivity|].
  apply (proj2 (primary_key_no_expiry_iff noon keyWithThreeIdentities)).
  reflexivity.
Defined.

(** X8. The subkey evaluator panics exactly when the selected encryption
    subkey has an expiry that is not before now and less than 20 days
    ahead; [GetKeyWarnings] panics exactly when the subkey evaluator
    does. *)
Theorem evaluation_panics_iff
  (nowPrimary now : Time) (key : pgpkey.PgpKey) :
  ((exists msg, getEncryptionSubkeyWarnings now key = Panic msg)
   <-> exists sk e,
         getMostRecentEncryptionSubkey key = Some sk
         /\ getSubkeyExpiry sk = (true, Some e)
         /\ unixNano now <= unixNano e < unixNano now + 20 * nanosPerDay)
  /\ ((exists msg, GetKeyWarnings nowPrimary now key = Panic msg)
      <-> exists msg, getEncryptionSubkeyWarnings now key = Panic msg).
Proof.
  split.
  - destruct (getMostRecentEncryptionSubkey key) as [sk|] eqn:Hsel.
    2:{ split.
        - intros (msg & H). unfold getEncryptionSubkeyWarnings in H.
          rewrite Hsel in H. discriminate.
        - intros (sk & e & H & _). discriminate. }
    destruct (getSubkeyExpiry_shape sk) as [E|(e & E & _)].
    { split.
      - intros (msg & H).
        rewrite (getEncryptionSubkeyWarnings_no_expiry now key sk Hsel E) in H.
        discriminate.
      - intros (sk' & e & H & H' & _). congruence. }
    rewrite (getEncryptionSubkeyWarnings_expiry now key sk e Hsel E).
    unfold Before. rewrite !unixNano_Add, thirtyDays_eq, tenDays_eq.
    fold nanosPerDay. rewrite nanosPerDay_eq.
    set (x := unixNano e). set (n := unixNano now).
    destruct (Z.ltb_spec x n) as [H1|H1].
    + split; [intros (msg & H); discriminate|].
      intros (sk' & e' & Hs & He & Hr).
      assert (e' = e) by congruence. subst e'. fold x in Hr. fold n in Hr. lia.
    + destruct (Z.ltb_spec (x + - (30 * 86400000000000) + 10 * 86400000000000) n)
        as [H2|H2].
      * split; [|intros _; eexists; reflexivity].
        intros _. exists sk, e. repeat split; auto; fold x; fold n; lia.
      * split; [intros (msg & H); discriminate|].
        intros (sk' & e' & Hs & He & Hr).
        assert (e' = e) by congruence. subst e'. fold x in Hr. fold n in Hr. lia.
  - destruct (getPrimaryKeyWarnings_returns nowPrimary key) as (p & Hp).
    unfold GetKeyWarnings. rewrite Hp. cbn [bind app].
    destruct (getEncryptionSubkeyWarnings now key) as [ws|msg]; cbn [bind].
    + split; intros (msg & H); discriminate.
    + split; intros _; eexists; reflexivity.
Qed.

Lemma evaluation_panics_iff_witness :
  (exists msg,
     GetKeyWarnings noon (Add noon (days 25)) keyWithThirtyDaySubkey
     = Panic msg)
  /\ exists msg,
       getEncryptionSubkeyWarnings (Add noon (days 25)) keyWithThirtyDaySubkey
       = Panic msg.
Proof.
  destruct (evaluation_panics_iff noon (Add noon (days 25))
              keyWithThirtyDaySubkey) as [H1 H2].
  assert (H : exists msg,
            getEncryptionSubkeyWarnings (Add noon (days 25))
              keyWithThirtyDaySubkey = Panic msg).
  { apply H1. exists thirtyDaySubkey, (Add noon (days 30)).
    split; [reflexivity|]. split; [reflexivity|]. vm_compute.
    split; [discriminate | reflexivity]. }
  split; [apply H2, H | exact H].
Defined.

(** X9. The primary-key evaluator returns at most two warnings, all of
    primary-key kinds and without a subkey identifier; the subkey evaluator,
    when it returns, gives at most two warnings, all of subkey kinds, each
    one [NoValidEncryptionSubkey] or carrying the identifier of the selected
    subkey. *)
Theorem warnings_of_each_evaluator
  (now : Time) (key : pgpkey.PgpKey) (ws : list KeyWarning) :
  (getPrimaryKeyWarnings now key = Ok ws ->
   (length ws <= 2)%nat
   /\ Forall (fun w => isPrimaryKind (Type_ w) = true /\ SubkeyId w = 0) ws)
  /\ (getEncryptionSubkeyWarnings now key = Ok ws ->
      (length ws <= 2)%nat
      /\ Forall (fun w =>
                   isSubkeyKind (Type_ w) = true
                   /\ (Type_ w = NoValidEncryptionSubkey
                       \/ exists sk,
                            getMostRecentEncryptionSubkey key = Some sk
                            /\ SubkeyId w
                               = packet.KeyId (openpgp.PublicKey sk))) ws).
Proof.
  split.
  - assert (Hcase : uidExpiries key = [] \/ uidExpiries key <> [])
      by (destruct (uidExpiries key); [now left | right; discriminate]).
    destruct Hcase as [E|E].
    + rewrite (getPrimaryKeyWarnings_no_expiry now key E).
      intros H. injection H as <-. split; [simpl; lia|].
      repeat constructor.
    + destruct (getEarliestUidExpiry_some key E) as (e & He & _).
      rewrite (getPrimaryKeyWarnings_expiry now key e He).
      unfold primaryRotationState.
      destruct (Before e now) eqn:Hexp.
      * rewrite (expired_not_too_long e now Hexp).
        intros H. injection H as <-. split; [simpl; lia|].
        repeat constructor.
      * destruct (Before (Add (Add e (- thirtyDays)) tenDays) now) eqn:Hov.
        -- destruct (isExpiryTooLong e now); intros H; injection H as <-;
             (split; [simpl; lia | repeat constructor]).
        -- destruct (Before (Add e (- thirtyDays)) now) eqn:Hdue.
           ++ destruct (isExpiryTooLong e now); intros H; injection H as <-;
                (split; [simpl; lia | repeat constructor]).
           ++ destruct (isExpiryTooLong e now); intros H; injection H as <-;
                (split; [simpl; lia | repeat constructor]).
  - assert (Hshape :
      forall l : list KeyWarning,
        (length l <= 2)%nat ->
        Forall (fun w =>
                  isSubkeyKind (Type_ w) = true
                  /\ (Type_ w = NoValidEncryptionSubkey
                      \/ exists sk,
                           getMostRecentEncryptionSubkey key = Some sk
                           /\ SubkeyId w
                              = packet.KeyId (openpgp.PublicKey sk))) l ->
        Ok l = Ok ws ->
        (length ws <= 2)%nat
        /\ Forall (fun w =>
                     isSubkeyKind (Type_ w) = true
                     /\ (Type_ w = NoValidEncryptionSubkey
                         \/ exists sk,
                              getMostRecentEncryptionSubkey key = Some sk
                              /\ SubkeyId w
                                 = packet.KeyId (openpgp.PublicKey sk))) ws)
      by (intros l Hl Hf H; injection H as <-; auto).
    destruct (getMostRecentEncryptionSubkey key) as [sk|] eqn:Hsel.
    2:{ unfold getEncryptionSubkeyWarnings. rewrite Hsel.
        apply Hshape; [simpl; lia|].
        constructor; [|constructor]. split; [reflexivity | now left]. }
    assert (Hid : forall ty,
              isSubkeyKind ty = true ->
              isSubkeyKind
                (Type_ (mkKeyWarning ty (packet.KeyId (openpgp.PublicKey sk)) 0 0))
              = true
              /\ (Type_ (mkKeyWarning ty (packet.KeyId (openpgp.PublicKey sk)) 0 0)
                  = NoValidEncryptionSubkey
                  \/ exists sk0,
                       Some sk = Some sk0
                       /\ SubkeyId
                            (mkKeyWarning ty
                               (packet.KeyId (openpgp.PublicKey sk)) 0 0)
                          = packet.KeyId (openpgp.PublicKey sk0)))
      by (intros ty Hty; split; [exact Hty | right; exists sk; split; reflexivity]).
    destruct (getSubkeyExpiry_shape sk) as [E|(e & E & _)].
    + rewrite (getEncryptionSubkeyWarnings_no_expiry now key sk Hsel E).
      apply Hshape; [simpl; lia|].
      constructor; [|constructor]. apply Hid. reflexivity.
    + rewrite (getEncryptionSubkeyWarnings_expiry now key sk e Hsel E).
      destruct (Before e now).
      * apply Hshape; [simpl; lia|].
        constructor; [|constructor]. split; [reflexivity | now left].
      * destruct (Before (Add (Add e (- thirtyDays)) tenDays) now);
          [discriminate|].
        destruct (Before (Add e (- thirtyDays)) now);
          destruct (isExpiryTooLong e now); cbn [app];
          (apply Hshape; [simpl; lia|]);
          repeat (first [apply Forall_nil
                        | apply Forall_cons; [apply Hid; reflexivity|]]).
Qed.

Lemma warnings_of_each_evaluator_witness :
  getEncryptionSubkeyWarnings noon keyWithThreeSubkeys
  = Ok [mkKeyWarning SubkeyLongExpiry 8 0 0]
  /\ (length [mkKeyWarning SubkeyLongExpiry 8 0 0] <= 2)%nat
  /\ Forall (fun w =>
               isSubkeyKind (Type_ w) = true
               /\ (Type_ w = NoValidEncryptionSubkey
                   \/ exists sk,
                        getMostRecentEncryptionSubkey keyWithThreeSubkeys
                        = Some sk
                        /\ SubkeyId w = packet.KeyId (openpgp.PublicKey sk)))
            [mkKeyWarning SubkeyLongExpiry 8 0 0].
Proof.
  split; [reflexivity|].
  apply (proj2 (warnings_of_each_evaluator noon keyWithThreeSubkeys
                  [mkKeyWarning SubkeyLongExpiry 8 0 0])).
  reflexivity.
Defined.

(** X10. An expiry set to [nextExpiryTime] is never reported as too long
    afterwards: for a clock that stays in its zone and does not go back,
    [isExpiryTooLong] is false for it at every later time. *)
Theorem policy_expiry_is_never_too_long (set now : Time) :
  loc set = loc now ->
  unixNano set <= unixNano now ->
  isExpiryTooLong (nextExpiryTime set) now = false.
Proof.
  intros Hloc Hle. unfold isExpiryTooLong, After.
  pose proof (nextExpiryTime_monotone set now Hloc Hle) as H.
  apply Z.ltb_ge. exact H.
Qed.

Lemma policy_expiry_is_never_too_long_witness :
  loc noon = loc (Add noon (days 20))
  /\ unixNano noon <= unixNano (Add noon (days 20))
  /\ isExpiryTooLong (nextExpiryTime noon) (Add noon (days 20)) = false.
Proof.
  split; [reflexivity|].
  assert (H : unixNano noon <= unixNano (Add noon (days 20)))
    by (vm_compute; discriminate).
  split; [exact H|].
  exact (policy_expiry_is_never_too_long noon (Add noon (days 20)) eq_refl H).
Defined.

(** X11. For a clock whose zone is less than a day away from UTC, the
    ceiling [nextExpiryTime] lies more than 30 days and at most 61 days
    ahead of now, up to the offset of the zone. *)
Theorem ceiling_window (now : Time) :
  Z.abs (offset (loc now)) < secondsPerDay ->
  unixNano now + 30 * nanosPerDay + offset (loc now) * Second
  < unixNano (nextExpiryTime now)
  <= unixNano now + 61 * nanosPerDay + offset (loc now) * Second.
Proof.
  intros Hoff.
  destruct (Time_Date now) as [[y m] d] eqn:E.
  destruct (month_of_instant _ _ _ _ E) as (Hm & Hb).
  unfold nextExpiryTime.
  rewrite (firstOfNextMonth_next _ _ _ _ E Hoff).
  rewrite unixNano_In, unixNano_Add, monthStart_unixNano, thirtyDays_eq.
  rewrite (first_of_next_month y m Hm).
  pose proof (daysIn_bounds m y Hm) as Hdi.
  fold nanosPerDay. rewrite nanosPerDay_eq in *.
  set (o := offset (loc now) * Second) in *. clearbody o.
  lia.
Qed.

Lemma ceiling_window_witness :
  Z.abs (offset (loc noon)) < secondsPerDay
  /\ unixNano noon + 30 * nanosPerDay + offset (loc noon) * Second
     < unixNano (nextExpiryTime noon)
     <= unixNano noon + 61 * nanosPerDay + offset (loc noon) * Second.
Proof.
  assert (H : Z.abs (offset (loc noon)) < secondsPerDay) by reflexivity.
  split; [exact H|]. exact (ceiling_window noon H).
Defined.

(** X12. For a clock in UTC or in a zone east of it (by less than a day), a
    key that is due for rotation does not have too long an expiry, so each
    evaluator returns at most one warning. *)
Theorem one_warning_east_of_UTC
  (now : Time) (key : pgpkey.PgpKey) (ws : list KeyWarning) :
  0 <= offset (loc now) < secondsPerDay ->
  (forall expiry,
     isDueForRotation (calculateNextRotationTime expiry) now = true ->
     isExpiryTooLong expiry now = false)
  /\ (getPrimaryKeyWarnings now key = Ok ws -> (length ws <= 1)%nat)
  /\ (getEncryptionSubkeyWarnings now key = Ok ws -> (length ws <= 1)%nat).
Proof.
  intros Hoff.
  assert (Hdue : forall expiry,
            Before (Add expiry (- thirtyDays)) now = true ->
            isExpiryTooLong expiry now = false).
  { intros expiry H.
    pose proof (ceiling_window now ltac:(lia)) as Hw.
    unfold isExpiryTooLong, After. unfold Before in H.
    rewrite unixNano_Add, thirtyDays_eq in H. fold nanosPerDay in H.
    apply Z.ltb_lt in H. apply Z.ltb_ge.
    set (c := unixNano (nextExpiryTime now)) in *. clearbody c.
    rewrite nanosPerDay_eq, Second_eq in *. lia. }
  split; [exact Hdue|]. split.
  - assert (Hcase : uidExpiries key = [] \/ uidExpiries key <> [])
      by (destruct (uidExpiries key); [now left | right; discriminate]).
    destruct Hcase as [E|E].
    + rewrite (getPrimaryKeyWarnings_no_expiry now key E).
      intros H. injection H as <-. simpl. lia.
    + destruct (getEarliestUidExpiry_some key E) as (e & He & _).
      rewrite (getPrimaryKeyWarnings_expiry now key e He).
      unfold primaryRotationState.
      pose proof (rotation_nesting_helper e now) as (Hn1 & Hn2).
      destruct (Before e now) eqn:Hexp.
      * rewrite (Hdue e (Hn2 (Hn1 eq_refl))).
        intros H. injection H as <-. simpl. lia.
      * destruct (Before (Add (Add e (- thirtyDays)) tenDays) now) eqn:Hov.
        -- rewrite (Hdue e (Hn2 eq_refl)).
           intros H. injection H as <-. simpl. lia.
        -- destruct (Before (Add e (- thirtyDays)) now) eqn:Hd.
           ++ rewrite (Hdue e Hd).
              intros H. injection H as <-. simpl. lia.
           ++ destruct (isExpiryTooLong e now); intros H; injection H as <-;
                simpl; lia.
  - destruct (getMostRecentEncryptionSubkey key) as [sk|] eqn:Hsel.
    2:{ unfold getEncryptionSubkeyWarnings. rewrite Hsel.
        intros H. injection H as <-. simpl. lia. }
    destruct (getSubkeyExpiry_shape sk) as [E|(e & E & _)].
    + rewrite (getEncryptionSubkeyWarnings_no_expiry now key sk Hsel E).
      intros H. injection H as <-. simpl. lia.
    + rewrite (getEncryptionSubkeyWarnings_expiry now key sk e Hsel E).
      destruct (Before e now); [intros H; injection H as <-; simpl; lia|].
      destruct (Before (Add (Add e (- thirtyDays)) tenDays) now);
        [discriminate|].
      destruct (Before (Add e (- thirtyDays)) now) eqn:Hd.
      * rewrite (Hdue e Hd). intros H. injection H as <-. simpl. lia.
      * destruct (isExpiryTooLong e now); intros H; injection H as <-;
          simpl; lia.
Qed.

Lemma one_warning_east_of_UTC_witness :
  0 <= offset (loc (Add noon (days 35))) < secondsPerDay
  /\ getPrimaryKeyWarnings (Add noon (days 35)) keyWithSixtyDayIdentity
     = Ok [mkKeyWarning PrimaryKeyDueForRotation 0 0 0]
  /\ (length [mkKeyWarning PrimaryKeyDueForRotation 0 0 0] <= 1)%nat.
Proof.
  assert (H : 0 <= offset (loc (Add noon (days 35))) < secondsPerDay)
    by (split; [discriminate | reflexivity]).
  split; [exact H|]. split; [reflexivity|].
  apply (proj1 (proj2 (one_warning_east_of_UTC (Add noon (days 35))
                         keyWithSixtyDayIdentity
                         [mkKeyWarning PrimaryKeyDueForRotation 0 0 0] H))).
  reflexivity.
Defined.

(** West of UTC the two warnings can come together: in the last hours of
    the local month the ceiling is counted from a month that has already
    begun in UTC. *)
Example two_warnings_west_of_UTC :
  getPrimaryKeyWarnings lastEveningOfSeptember keyOfSeptember
  = Ok [mkKeyWarning PrimaryKeyDueForRotation 0 0 0;
        mkKeyWarning PrimaryKeyLongExpiry 0 0 0].
Proof. reflexivity. Qed.



(** X14. [sort.Sort(sort.Reverse(ByCreated(subkeys)))] keeps the subkeys
    and leaves them in the order of their creation times, the latest
    first. *)
Theorem subkeys_sorted_latest_first (subkeys : list openpgp.Subkey) :
  Permutation (sort.inner (sort.Sort (sort.Reverse (subkeys : ByCreated))))
              subkeys
  /\ StronglySorted notBefore
       (sort.inner (sort.Sort (sort.Reverse (subkeys : ByCreated)))).
Proof.
  rewrite Sort_Reverse_ByCreated. split.
  - rewrite <- Permutation_rev.
    apply (fold_insr_perm laterCreated subkeys []).
  - apply StronglySorted_rev, fold_insr_sorted. constructor.
Qed.



(** X16. [GetKeyWarnings] returns no warning at all exactly when the
    earliest identity expiry and the expiry of the selected encryption
    subkey both exist and lie at least 30 days ahead of the clock and not
    beyond the ceiling [nextExpiryTime]. *)
Theorem no_warnings_iff (nowPrimary nowSubkey : Time) (key : pgpkey.PgpKey) :
  GetKeyWarnings nowPrimary nowSubkey key = Ok []
  <-> (exists e,
         getEarliestUidExpiry key = Ok (true, Some e)
         /\ unixNano nowPrimary + thirtyDays <= unixNano e
            <= unixNano (nextExpiryTime nowPrimary))
      /\ (exists sk e,
            getMostRecentEncryptionSubkey key = Some sk
            /\ getSubkeyExpiry sk = (true, Some e)
            /\ unixNano nowSubkey + thirtyDays <= unixNano e
               <= unixNano (nextExpiryTime nowSubkey)).
Proof.
  rewrite <- primary_healthy_iff, <- subkey_healthy_iff.
  destruct (getPrimaryKeyWarnings_returns nowPrimary key) as (p & Hp).
  unfold GetKeyWarnings. rewrite Hp. cbn [bind app].
  destruct (getEncryptionSubkeyWarnings nowSubkey key) as [s|msg]; cbn [bind].
  - split.
    + intros H. apply Ok_inj in H. apply app_eq_nil in H as [-> ->]. auto.
    + intros [H1 H2]. apply Ok_inj in H1. apply Ok_inj in H2. now subst.
  - split; [discriminate | intros [_ H]; discriminate].
Qed.

Lemma no_warnings_iff_witness :
  GetKeyWarnings (Add noon (days 20)) (Add noon (days 20))
    (pgpkey.mkPgpKey primary [identity (Some (60 * 86400))]
                     [subkey noon 7 (Some (60 * 86400))])
  = Ok [].
Proof.
  apply (proj2 (no_warnings_iff (Add noon (days 20)) (Add noon (days 20)) _)).
  split.
  - exists (Add noon (days 60)). split; [reflexivity|].
    vm_compute. split; discriminate.
  - exists (subkey noon 7 (Some (60 * 86400))), (Add noon (days 60)).
    split; [reflexivity|]. split; [reflexivity|].
    vm_compute. split; discriminate.
Defined.
